(** * MediaDevicesManager: a shallow embedding in Rocq

    The JavaScript module [MediaDevicesManager] keeps the list of local
    capture/playback devices, the selected audio and video input, the
    per-kind preference lists and the set of live media tracks.  This file
    embeds the parts of it that its specification talks about:

    - the JS values stored in [this.attributes] ([jsval]) and their
      truthiness, since the code branches on truthiness throughout;
    - the device objects, kept in a heap of locations because the same
      object is shared by [attributes.devices] and [_knownDevices] and is
      mutated in place by [_updateDevice];
    - the browser storage, the hardware calls issued (as a log) and the
      change notifications emitted (as a log);
    - the asynchronous steps: [_updateDevices] issues an enumeration, and
      the enumeration's [then]/[catch] handlers run later as their own
      steps; [getUserMedia] takes the hardware's answers as arguments. *)

From Stdlib Require Import String Ascii List Bool Arith ZArith Lia DecimalString.
From stdpp Require Import base gmap strings list.

Import ListNotations.
Local Open Scope string_scope.

(** ** JavaScript values *)

Definition loc := nat.

(** The values the manager stores in [this.attributes] and passes to
    [set]: [undefined], [null], booleans, numbers, strings and arrays of
    device objects (given by their locations). *)
Inductive jsval :=
| JUndef
| JNull
| JBool (b : bool)
| JNum (n : Z)
| JStr (s : string)
| JArr (l : list loc).

#[global] Instance jsval_eq_dec : EqDecision jsval.
Proof. solve_decision. Defined.

(** [===] on the values above.  Arrays are compared by content; the code
    never compares arrays with [===]. *)
Definition strict_eq (v w : jsval) : bool := bool_decide (v = w).

Definition truthy (v : jsval) : bool :=
  match v with
  | JUndef | JNull => false
  | JBool b => b
  | JNum n => negb (Z.eqb n 0)
  | JStr s => negb (String.eqb s "")
  | JArr _ => true
  end.

(** [a || b] *)
Definition js_or (a b : jsval) : jsval := if truthy a then a else b.

(** A value that is a string or [undefined] ([x?.deviceId], the result of
    [Array.prototype.find] followed by a field read, ...). *)
Definition of_opt (o : option string) : jsval :=
  match o with Some s => JStr s | None => JUndef end.

Definition string_of_nat (n : nat) : string :=
  NilZero.string_of_uint (Nat.to_uint n).

(** [String(v)] for the truthy values [BrowserStorage.setItem] can receive. *)
Definition js_to_string (v : jsval) : string :=
  match v with
  | JUndef => "undefined"
  | JNull => "null"
  | JBool true => "true"
  | JBool false => "false"
  | JNum n => NilZero.string_of_int (Z.to_int n)
  | JStr s => s
  | JArr l => String.concat "," (map (fun _ => "[object Object]") l)
  end.

(** ** Devices *)

(** A [MediaDeviceInfo] as returned by [enumerateDevices()]. *)
Record media_device_info := mkMediaDeviceInfo {
  mdi_deviceId : string;
  mdi_groupId : string;
  mdi_kind : string;
  mdi_label : string;
}.

(** The device objects built by [_addDevice]; [fallbackLabel] is [None]
    when the code leaves it [undefined] (a kind other than the three known
    ones). *)
Record device := mkDevice {
  deviceId : string;
  groupId : string;
  kind : string;
  label : string;
  fallbackLabel : option string;
}.

Definition emptyDevice : device := mkDevice "" "" "" "" None.

(** [oldDevice.deviceId === device.deviceId && oldDevice.kind === device.kind] *)
Definition sameDevice (d : device) (m : media_device_info) : bool :=
  String.eqb (deviceId d) (mdi_deviceId m) && String.eqb (kind d) (mdi_kind m).

(** ** Media tracks and constraints *)

(** A [MediaStreamTrack]: its identity, its kind (["audio"] or ["video"]),
    [getSettings().deviceId] and whether it has ended ([readyState] is
    ["ended"]). *)
Record track := mkTrack {
  track_id : nat;
  track_kind : string;
  track_settings_deviceId : option string;
  track_stopped : bool;
}.

(** [constraints.audio.deviceId]: a plain string or an object with
    [exact] and/or [ideal] members. *)
Inductive device_id_constraint :=
| DIdStr (s : string)
| DIdObj (exact ideal : jsval).

(** [constraints.audio] / [constraints.video]: absent, a boolean, or a
    constraint object with an optional [deviceId] and other members. *)
Inductive media_constraint :=
| MUndef
| MBool (b : bool)
| MObj (mc_deviceId : option device_id_constraint) (mc_other : list (string * string)).

Record constraints := mkConstraints {
  c_audio : media_constraint;
  c_video : media_constraint;
}.

Definition mc_truthy (m : media_constraint) : bool :=
  match m with MUndef => false | MBool b => b | MObj _ _ => true end.

(** Truthiness of [m.deviceId] (a boolean has no [deviceId] member). *)
Definition mc_deviceId_truthy (m : media_constraint) : bool :=
  match m with
  | MObj (Some (DIdStr s)) _ => negb (String.eqb s "")
  | MObj (Some (DIdObj _ _)) _ => true
  | _ => false
  end.

(** ** Errors and hardware calls *)

Inductive js_error :=
| DOMException (message name : string)
| HardwareError (name : string) (id : nat).

(** The hardware's answer to one [navigator.mediaDevices.getUserMedia]. *)
Inductive gum_response :=
| GumOk (stream : list track)
| GumErr (e : js_error).

(** The settlement of the promise returned to the caller. *)
Inductive gum_outcome :=
| Resolved (stream : list track)
| Rejected (e : js_error).

(** Calls into [navigator.mediaDevices] and on tracks, in issue order. *)
Inductive hw_call :=
| HwEnumerateDevices (id : nat)
| HwGetUserMedia (c : constraints)
| HwStopTrack (id : nat)
| HwAddDeviceChangeListener
| HwRemoveDeviceChangeListener.

(** ** Browser storage *)

(** Modelled from the spec: [BrowserStorage] (services/BrowserStorage.js,
    not part of this sources) is a persistent string key-value store with
    [getItem] (a missing key reads as [null]), [setItem] and [removeItem].
    Preference lists are written with [JSON.stringify] and read back with
    [JSON.parse]; [SJson l] is the serialised form of the list [l]. *)
Inductive stored :=
| SStr (s : string)
| SJson (l : list string).

#[global] Instance stored_eq_dec : EqDecision stored.
Proof. solve_decision. Defined.

Definition getItem (k : string) (s : gmap string stored) : option stored := s !! k.
Definition setItem (k : string) (v : stored) (s : gmap string stored) : gmap string stored :=
  <[k := v]> s.
Definition removeItem (k : string) (s : gmap string stored) : gmap string stored :=
  delete k s.

(** ** The manager's state *)

Record manager := mkManager {
  supported : bool;                      (* isSupported() *)
  attributes : gmap string jsval;        (* this.attributes *)
  heap : gmap loc device;                (* the device objects *)
  enabledCount : Z;                      (* this._enabledCount *)
  knownDevices : gmap string loc;        (* this._knownDevices *)
  tracks : list track;                   (* this._tracks *)
  pendingEnumerate : option nat;         (* this._pendingEnumerateDevicesPromise *)
  inflight : list nat;                   (* enumerations not settled yet *)
  nextEnumeration : nat;
  preferenceAudioInputList : list string;
  preferenceVideoInputList : list string;
  storage : gmap string stored;          (* BrowserStorage *)
  hw : list hw_call;                     (* hardware calls issued *)
  emitted : list (string * jsval);       (* _trigger(name, [value]) *)
}.

(** Field updates of the state. *)
Definition set_attributes a st := mkManager (supported st) a (heap st) (enabledCount st) (knownDevices st) (tracks st) (pendingEnumerate st) (inflight st) (nextEnumeration st) (preferenceAudioInputList st) (preferenceVideoInputList st) (storage st) (hw st) (emitted st).
Definition set_heap h st := mkManager (supported st) (attributes st) h (enabledCount st) (knownDevices st) (tracks st) (pendingEnumerate st) (inflight st) (nextEnumeration st) (preferenceAudioInputList st) (preferenceVideoInputList st) (storage st) (hw st) (emitted st).
Definition set_enabledCount n st := mkManager (supported st) (attributes st) (heap st) n (knownDevices st) (tracks st) (pendingEnumerate st) (inflight st) (nextEnumeration st) (preferenceAudioInputList st) (preferenceVideoInputList st) (storage st) (hw st) (emitted st).
Definition set_knownDevices k st := mkManager (supported st) (attributes st) (heap st) (enabledCount st) k (tracks st) (pendingEnumerate st) (inflight st) (nextEnumeration st) (preferenceAudioInputList st) (preferenceVideoInputList st) (storage st) (hw st) (emitted st).
Definition set_tracks t st := mkManager (supported st) (attributes st) (heap st) (enabledCount st) (knownDevices st) t (pendingEnumerate st) (inflight st) (nextEnumeration st) (preferenceAudioInputList st) (preferenceVideoInputList st) (storage st) (hw st) (emitted st).
Definition set_enumeration p fl n st := mkManager (supported st) (attributes st) (heap st) (enabledCount st) (knownDevices st) (tracks st) p fl n (preferenceAudioInputList st) (preferenceVideoInputList st) (storage st) (hw st) (emitted st).
Definition set_preferenceAudioInputList l st := mkManager (supported st) (attributes st) (heap st) (enabledCount st) (knownDevices st) (tracks st) (pendingEnumerate st) (inflight st) (nextEnumeration st) l (preferenceVideoInputList st) (storage st) (hw st) (emitted st).
Definition set_preferenceVideoInputList l st := mkManager (supported st) (attributes st) (heap st) (enabledCount st) (knownDevices st) (tracks st) (pendingEnumerate st) (inflight st) (nextEnumeration st) (preferenceAudioInputList st) l (storage st) (hw st) (emitted st).
Definition set_storage s st := mkManager (supported st) (attributes st) (heap st) (enabledCount st) (knownDevices st) (tracks st) (pendingEnumerate st) (inflight st) (nextEnumeration st) (preferenceAudioInputList st) (preferenceVideoInputList st) s (hw st) (emitted st).
Definition set_hw l st := mkManager (supported st) (attributes st) (heap st) (enabledCount st) (knownDevices st) (tracks st) (pendingEnumerate st) (inflight st) (nextEnumeration st) (preferenceAudioInputList st) (preferenceVideoInputList st) (storage st) l (emitted st).
Definition set_emitted l st := mkManager (supported st) (attributes st) (heap st) (enabledCount st) (knownDevices st) (tracks st) (pendingEnumerate st) (inflight st) (nextEnumeration st) (preferenceAudioInputList st) (preferenceVideoInputList st) (storage st) (hw st) l.

(** [navigator.mediaDevices.*(...)] / [track.stop()]: log the call. *)
Definition issue (c : hw_call) (st : manager) : manager := set_hw (hw st ++ [c]) st.

(** [this._trigger(name, [value])] *)
Definition trigger (name : string) (v : jsval) (st : manager) : manager :=
  set_emitted (emitted st ++ [(name, v)]) st.

(** [this.attributes[key] = v] *)
Definition setAttr (key : string) (v : jsval) (st : manager) : manager :=
  set_attributes (<[key := v]> (attributes st)) st.

(** [this._tracks] reads as an array of device objects. *)
Definition deref (h : gmap loc device) (l : loc) : device := default emptyDevice (h !! l).

(** [this.attributes.devices]; the code only ever stores an array there. *)
Definition devices (st : manager) : list loc :=
  match attributes st !! "devices" with Some (JArr l) => l | _ => [] end.

Definition setDevices (l : list loc) (st : manager) : manager := setAttr "devices" (JArr l) st.

(** ** get / set and the persisted selection *)

Definition LOCAL_STORAGE_NULL_DEVICE_ID : string := "local-storage-null-device-id".

Definition get (key : string) (st : manager) : jsval := default JUndef (attributes st !! key).

Definition storeDeviceId (key : string) (value : jsval) (s : gmap string stored) : gmap string stored :=
  if negb (String.eqb key "audioInputId") && negb (String.eqb key "videoInputId") then s
  else
    let value := if strict_eq value JNull then JStr LOCAL_STORAGE_NULL_DEVICE_ID else value in
    if truthy value then setItem key (SStr (js_to_string value)) s
    else removeItem key s.

Definition set (key : string) (value : jsval) (st : manager) : manager :=
  let st := setAttr key value st in
  let st := trigger ("change:" ++ key) value st in
  set_storage (storeDeviceId key value (storage st)) st.

(** ** Construction *)

(** [JSON.parse] of a stored preference list; any other stored text
    either throws or yields no list, which aborts the constructor. *)
Definition parsePreferences (v : option stored) : option (list string) :=
  match v with
  | None => Some []
  | Some (SJson l) => Some l
  | Some (SStr _) => None
  end.

(** The synchronous part of [new MediaDevicesManager()] over the storage
    [s], in an environment where [isSupported()] is [sup].  The callbacks
    of [requestInitialPermissions] run later; its hardware request is
    logged. *)
Definition newMediaDevicesManager (sup : bool) (s : gmap string stored) : option manager :=
  match parsePreferences (getItem "audioInputPreferences" s),
        parsePreferences (getItem "videoInputPreferences" s) with
  | Some pa, Some pv =>
    let restore k := if bool_decide (getItem k s = Some (SStr LOCAL_STORAGE_NULL_DEVICE_ID))
                     then JNull else JUndef in
    let attrs : gmap string jsval :=
      <["devices" := JArr []]> (<["audioInputId" := restore "audioInputId"]>
        (<["videoInputId" := restore "videoInputId"]> ∅)) in
    Some (mkManager sup attrs ∅ 0%Z ∅ [] None [] 0 pa pv s
            (if sup then [HwGetUserMedia (mkConstraints (MBool true) (MBool true))] else [])
            [])
  | _, _ => None
  end.

(** ** Enumeration *)

(** [_updateDevices()]: issue [enumerateDevices()] and remember its promise
    in [_pendingEnumerateDevicesPromise]; its handlers are
    [enumerateDevicesResolved] and [enumerateDevicesRejected] below. *)
Definition updateDevices (st : manager) : manager :=
  let k := nextEnumeration st in
  issue (HwEnumerateDevices k) (set_enumeration (Some k) (inflight st ++ [k]) (S k) st).

Definition enableDeviceEvents (st : manager) : manager :=
  if negb (supported st) then st
  else issue HwAddDeviceChangeListener
         (updateDevices (set_enabledCount (enabledCount st + 1)%Z st)).

Definition disableDeviceEvents (st : manager) : manager :=
  if negb (supported st) then st
  else let st := set_enabledCount (enabledCount st - 1)%Z st in
       if Z.eqb (enabledCount st) 0 then issue HwRemoveDeviceChangeListener st else st.

(** ** Preference lists *)

(** Modelled from the spec: [getFirstAvailableMediaDevice(devices, inputList)]
    (services/mediaDevicePreferences.ts, not part of this sources) returns
    the first identifier of the preference list [inputList] that is the
    [deviceId] of one of [devices], else [undefined].  The device list is
    given by its identifiers [ids]. *)
Definition getFirstAvailableMediaDevice (ids : list string) (inputList : list string) : option string :=
  List.find (fun id => existsb (String.eqb id) ids) inputList.

(** Modelled from the spec: the list [l] extended with the identifiers of
    the devices of kind [knd] in [F] that it lacks, in enumeration order. *)
Definition appendNewInputs (knd : string) (F : list media_device_info) (l : list string) : list string :=
  fold_left (fun acc d =>
    if String.eqb (mdi_kind d) knd && negb (existsb (String.eqb (mdi_deviceId d)) acc)
    then (acc ++ [mdi_deviceId d])%list else acc) F l.

(** Modelled from the spec: [populateMediaDevicesPreferences(devices,
    audioInputList, videoInputList)] (services/mediaDevicePreferences.ts, not
    part of this sources) appends to each input list the identifiers of
    that kind present in [devices] and absent from the list, and returns
    the new list of each kind, or [null] when it did not change. *)
Definition populateMediaDevicesPreferences (F : list media_device_info) (a v : list string)
  : option (list string) * option (list string) :=
  let a' := appendNewInputs "audioinput" F a in
  let v' := appendNewInputs "videoinput" F v in
  (if Nat.eqb (length a') (length a) then None else Some a',
   if Nat.eqb (length v') (length v) then None else Some v').

Definition populatePreferences (F : list media_device_info) (st : manager) : manager :=
  let '(na, nv) := populateMediaDevicesPreferences F (preferenceAudioInputList st)
                     (preferenceVideoInputList st) in
  let st := match na with
            | Some l => set_storage (setItem "audioInputPreferences" (SJson l) (storage st))
                          (set_preferenceAudioInputList l st)
            | None => st
            end in
  match nv with
  | Some l => set_storage (setItem "videoInputPreferences" (SJson l) (storage st))
                (set_preferenceVideoInputList l st)
  | None => st
  end.

(** ** The diff engine *)

(** [findIndex] followed by [splice(index, 1)] when found. *)
Fixpoint removeFirst (p : loc -> bool) (l : list loc) : list loc :=
  match l with
  | [] => []
  | x :: l' => if p x then l' else x :: removeFirst p l'
  end.

Definition removeDevice (l : loc) (st : manager) : manager :=
  let r := deref (heap st) l in
  let st := setDevices (removeFirst (fun l' =>
               String.eqb (deviceId (deref (heap st) l')) (deviceId r) &&
               String.eqb (kind (deref (heap st) l')) (kind r)) (devices st)) st in
  if String.eqb (kind r) "audioinput" && strict_eq (JStr (deviceId r)) (get "audioInputId" st)
  then setAttr "audioInputId" JUndef st
  else if String.eqb (kind r) "videoinput" && strict_eq (JStr (deviceId r)) (get "videoInputId" st)
  then setAttr "videoInputId" JUndef st
  else st.

(** [_updateDevice]; [None] when no device matches: the write to a field
    of [undefined] throws a [TypeError]. *)
Definition updateDevice (f : media_device_info) (st : manager) : option manager :=
  match List.find (fun l => sameDevice (deref (heap st) l) f) (devices st) with
  | None => None
  | Some l =>
    let o := deref (heap st) l in
    let o := mkDevice (deviceId o) (mdi_groupId f) (mdi_kind f)
               (if negb (String.eqb (mdi_label f) "") then mdi_label f else label o)
               (fallbackLabel o) in
    Some (set_heap (<[l := o]> (heap st)) st)
  end.

(** [updatedDevices.forEach(...)]: the state reached and whether no
    [_updateDevice] threw. *)
Fixpoint updateAll (fs : list media_device_info) (st : manager) : manager * bool :=
  match fs with
  | [] => (st, true)
  | f :: fs => match updateDevice f st with
               | Some st' => updateAll fs st'
               | None => (st, false)
               end
  end.

(** [Object.values(this._knownDevices).filter(device => device.kind === knd
    && device.deviceId !== '').length] *)
Definition countKnown (knd : string) (st : manager) : nat :=
  length (List.filter (fun l => String.eqb (kind (deref (heap st) l)) knd &&
                               negb (String.eqb (deviceId (deref (heap st) l)) ""))
            (map snd (map_to_list (knownDevices st)))).

(** The fallback label of a device without cache entry; [t('spreed', ...)]
    is the untranslated template with its placeholder filled in. *)
Definition newFallbackLabel (f : media_device_info) (st : manager) : option string :=
  if String.eqb (mdi_deviceId f) "default" || String.eqb (mdi_deviceId f) "" then Some "Default"
  else if String.eqb (mdi_kind f) "audioinput" then
    Some ("Microphone " ++ string_of_nat (countKnown "audioinput" st + 1))
  else if String.eqb (mdi_kind f) "videoinput" then
    Some ("Camera " ++ string_of_nat (countKnown "videoinput" st + 1))
  else if String.eqb (mdi_kind f) "audiooutput" then
    Some ("Speaker " ++ string_of_nat (countKnown "audiooutput" st + 1))
  else None.

Definition knownDeviceKey (f : media_device_info) : string := mdi_kind f ++ "-" ++ mdi_deviceId f.

(** The object [_addDevice] stores for [f]. *)
Definition addedDeviceRecord (f : media_device_info) (st : manager) : device :=
  match knownDevices st !! knownDeviceKey f with
  | Some kl =>
    let known := deref (heap st) kl in
    mkDevice (mdi_deviceId f) (mdi_groupId f) (mdi_kind f)
      (if negb (String.eqb (mdi_label f) "") then mdi_label f else label known)
      (fallbackLabel known)
  | None =>
    mkDevice (mdi_deviceId f) (mdi_groupId f) (mdi_kind f) (mdi_label f) (newFallbackLabel f st)
  end.

(** [_addDevice]: a new object, shared by the cache and the device list. *)
Definition addDevice (f : media_device_info) (st : manager) : manager :=
  let d := addedDeviceRecord f st in
  let l := fresh (dom (heap st)) in
  let st := set_heap (<[l := d]> (heap st)) st in
  let st := set_knownDevices (<[knownDeviceKey f := l]> (knownDevices st)) st in
  setDevices (devices st ++ [l])%list st.

(** [getFirstAvailableMediaDevice(devices, list) || devices.find(device =>
    device.kind === knd)?.deviceId] *)
Definition autoSelect (F : list media_device_info) (prefs : list string) (knd : string) : jsval :=
  js_or (of_opt (getFirstAvailableMediaDevice (map mdi_deviceId F) prefs))
        (of_opt (option_map mdi_deviceId (List.find (fun d => String.eqb (mdi_kind d) knd) F))).

(** The sticky-default step for one selection key. *)
Definition recomputeSelection (key : string) (prevFirst : option string)
    (F : list media_device_info) (prefs : list string) (knd : string) (st : manager) : manager :=
  let cur := get key st in
  if strict_eq cur JUndef || strict_eq cur (of_opt prevFirst)
  then setAttr key (autoSelect F prefs knd) st
  else st.

Definition notifyIfChanged (key : string) (prev : jsval) (st : manager) : manager :=
  if negb (strict_eq prev (get key st)) then trigger ("change:" ++ key) (get key st) st else st.

(** The first half of the [then] handler of [_updateDevices] for the
    fresh list [F]: removed, updated and added devices; the boolean is
    [false] when an [_updateDevice] threw. *)
Definition diffDevices (F : list media_device_info) (st : manager) : manager * bool :=
  let h := heap st in
  let removed := List.filter (fun l => negb (existsb (sameDevice (deref h l)) F)) (devices st) in
  let updated := List.filter (fun f => existsb (fun l => sameDevice (deref h l) f) (devices st)) F in
  let added := List.filter (fun f => negb (existsb (fun l => sameDevice (deref h l) f) (devices st))) F in
  let st := fold_left (fun s l => removeDevice l s) removed st in
  match updateAll updated st with
  | (st, false) => (st, false)
  | (st, true) => (fold_left (fun s f => addDevice f s) added st, true)
  end.

(** [getFirstAvailableMediaDevice(this.attributes.devices, list)] *)
Definition firstAvailable (st : manager) (prefs : list string) : option string :=
  getFirstAvailableMediaDevice (map (fun l => deviceId (deref (heap st) l)) (devices st)) prefs.

(** The whole [then] handler of [_updateDevices] for the fresh list [F];
    the boolean is [false] when it threw. *)
Definition processDevices (F : list media_device_info) (st : manager) : manager * bool :=
  let prevA := get "audioInputId" st in
  let prevV := get "videoInputId" st in
  let prevFirstA := firstAvailable st (preferenceAudioInputList st) in
  let prevFirstV := firstAvailable st (preferenceVideoInputList st) in
  match diffDevices F st with
  | (st, false) => (st, false)
  | (st, true) =>
    let st := populatePreferences F st in
    let st := recomputeSelection "audioInputId" prevFirstA F (preferenceAudioInputList st) "audioinput" st in
    let st := recomputeSelection "videoInputId" prevFirstV F (preferenceVideoInputList st) "videoinput" st in
    let st := notifyIfChanged "audioInputId" prevA st in
    let st := notifyIfChanged "videoInputId" prevV st in
    (st, true)
  end.

(** Both handlers end with [_pendingEnumerateDevicesPromise = null]. *)
Definition settleEnumeration (k : nat) (st : manager) : manager :=
  set_enumeration None (List.filter (fun j => negb (Nat.eqb j k)) (inflight st)) (nextEnumeration st) st.

(** Enumeration [k] resolved with [F]: the [then] handler runs, and if it
    throws the [catch] handler runs after it. *)
Definition enumerateDevicesResolved (k : nat) (F : list media_device_info) (st : manager) : manager :=
  settleEnumeration k (fst (processDevices F st)).

(** Enumeration [k] rejected: the [catch] handler runs. *)
Definition enumerateDevicesRejected (k : nat) (st : manager) : manager :=
  settleEnumeration k st.

(** The two input kinds, with their selection key, [MediaDeviceInfo]
    kind and preference list. *)
Inductive input_kind := AudioInput | VideoInput.

Definition selKey (ik : input_kind) : string :=
  match ik with AudioInput => "audioInputId" | VideoInput => "videoInputId" end.

Definition devKind (ik : input_kind) : string :=
  match ik with AudioInput => "audioinput" | VideoInput => "videoinput" end.

Definition prefList (ik : input_kind) (st : manager) : list string :=
  match ik with
  | AudioInput => preferenceAudioInputList st
  | VideoInput => preferenceVideoInputList st
  end.

(** ** Track registry *)

Definition registerTrack (t : track) (st : manager) : manager :=
  set_tracks (tracks st ++ [t])%list st.

Definition registerStream (stream : list track) (st : manager) : manager :=
  fold_left (fun s t => registerTrack t s) stream st.

(** The [ended] listener of a registered track: [indexOf] then [splice]. *)
Fixpoint removeTrack (id : nat) (ts : list track) : list track :=
  match ts with
  | [] => []
  | t :: ts => if Nat.eqb (track_id t) id then ts else t :: removeTrack id ts
  end.

Definition trackEnded (id : nat) (st : manager) : manager :=
  set_tracks (removeTrack id (tracks st)) st.

(** The [cloned] listener of a registered track. *)
Definition trackCloned (clone : track) (st : manager) : manager := registerTrack clone st.

(** ** Acquisition *)

(** The constraint rewriting at the start of [_getUserMediaInternal] for
    one kind, given the current selection [sel]. *)
Definition injectSelection (sel : jsval) (m : media_constraint) : media_constraint :=
  if mc_truthy m && negb (mc_deviceId_truthy m) then
    if truthy sel then
      match m with
      | MObj _ other => MObj (Some (DIdObj sel JUndef)) other
      | _ => MObj (Some (DIdObj sel JUndef)) []
      end
    else if strict_eq sel JNull then MBool false
    else m
  else m.

Definition resolveConstraints (c : constraints) (st : manager) : constraints :=
  mkConstraints (injectSelection (get "audioInputId" st) (c_audio c))
                (injectSelection (get "videoInputId" st) (c_video c)).

(** [deviceId.exact || deviceId.ideal || deviceId]: a value, or the
    [deviceId] object itself ([TObj]), which no string is [===] to. *)
Inductive device_target :=
| TVal (v : jsval)
| TObj.

Definition constraintDeviceId (d : device_id_constraint) : device_target :=
  match d with
  | DIdStr s => TVal (JStr s)
  | DIdObj ex id => if truthy ex then TVal ex else if truthy id then TVal id else TObj
  end.

(** The test of [_stopIncompatibleTracks] for the constraint [m] of the
    track kind [knd] ([getSettings()] always returns an object). *)
Definition conflicts (m : media_constraint) (knd : string) (t : track) : bool :=
  match m with
  | MObj (Some d) _ =>
    mc_deviceId_truthy m && String.eqb (track_kind t) knd &&
    match constraintDeviceId d with
    | TVal v => negb (strict_eq (of_opt (track_settings_deviceId t)) v)
    | TObj => true
    end
  | _ => false
  end.

(** [track.stop()] on the registered track [t].  Modelled from the patched
    [MediaStreamTrack] the app loads (the one that dispatches the
    [cloned] event [_registerTrack] listens to; not part of these
    sources): [stop()] on a track that has not ended yet ends it and
    dispatches [ended] at once, so the [ended] listeners of
    [_registerTrack] run before [stop()] returns.  Each registration of
    the track installed one listener, each removing one occurrence with
    [indexOf] and [splice], so every occurrence of the track leaves
    [_tracks].  A track that has already ended dispatches nothing. *)
Definition stopTrack (t : track) (st : manager) : manager :=
  let st := issue (HwStopTrack (track_id t)) st in
  if track_stopped t then st
  else set_tracks (List.filter (fun u => negb (Nat.eqb (track_id u) (track_id t))) (tracks st)) st.

(** The callback of the [forEach] in [_stopIncompatibleTracks] for the
    track [t]. *)
Definition stopIfIncompatible (c : constraints) (t : track) (st : manager) : manager :=
  let st := if conflicts (c_audio c) "audio" t then stopTrack t st else st in
  if conflicts (c_video c) "video" t then stopTrack t st else st.

(** [this._tracks.forEach(...)]: [forEach] fixes the number of steps to
    the length the array has when it starts, and at step [k] runs the
    callback on the element at index [k] of the array as it is then, if
    that index is still present.  [n] is the number of steps left. *)
Fixpoint forEachTracks (c : constraints) (n k : nat) (st : manager) : manager :=
  match n with
  | O => st
  | S n =>
    let st := match nth_error (tracks st) k with
              | Some t => stopIfIncompatible c t st
              | None => st
              end in
    forEachTracks c n (S k) st
  end.

Definition stopIncompatibleTracks (c : constraints) (st : manager) : manager :=
  forEachTracks c (length (tracks st)) 0 st.

(** One half of [_updateSelectedDevicesFromGetUserMediaResult]. *)
Definition reconcileSelection (key knd : string) (stream : list track) (st : manager) : manager :=
  if truthy (get key st) then
    match List.filter (fun t => String.eqb (track_kind t) knd) stream with
    | t :: _ =>
      match track_settings_deviceId t with
      | Some d => if negb (String.eqb d "") && negb (strict_eq (get key st) (JStr d))
                  then set key (JStr d) st else st
      | None => st
      end
    | [] => st
    end
  else st.

Definition updateSelectedDevicesFromGetUserMediaResult (stream : list track) (st : manager) : manager :=
  reconcileSelection "videoInputId" "video" stream
    (reconcileSelection "audioInputId" "audio" stream st).

(** [_getUserMediaInternal(constraints)] answered by [r]: the state after
    the promise settles, the (mutated) constraints object and the
    settlement. *)
Definition getUserMediaInternal (c : constraints) (r : gum_response) (st : manager)
  : manager * constraints * gum_outcome :=
  let c := resolveConstraints c st in
  let st := stopIncompatibleTracks c st in
  let st := issue (HwGetUserMedia c) st in
  match r with
  | GumOk stream =>
    let st := registerStream stream st in
    let st := updateSelectedDevicesFromGetUserMediaResult stream st in
    (updateDevices st, c, Resolved stream)
  | GumErr e => (updateDevices st, c, Rejected e)
  end.

Definition notSupportedError : js_error :=
  DOMException "MediaDevicesManager is not supported" "NotSupportedError".

(** [getUserMedia(constraints)].  [enum] is how the pending enumeration,
    if any, settles (its device list, or [None] when it is rejected);
    [r1] and [r2] answer the first and second hardware requests. *)
Definition getUserMedia (c : constraints) (enum : option (list media_device_info))
    (r1 r2 : gum_response) (st : manager) : manager * constraints * gum_outcome :=
  if negb (supported st) then (st, c, Rejected notSupportedError)
  else match pendingEnumerate st with
  | None => getUserMediaInternal c r1 st
  | Some k =>
    let st := match enum with
              | Some F => enumerateDevicesResolved k F st
              | None => enumerateDevicesRejected k st
              end in
    match getUserMediaInternal c r1 st with
    | (st, c, Resolved s) => (st, c, Resolved s)
    | (st, c, Rejected _) => getUserMediaInternal c r2 st
    end
  end.

(** ** Concrete states *)

(** The manager built over an empty storage. *)
Definition emptyStorageManager (sup : bool) : manager :=
  mkManager sup (<["devices" := JArr []]> (<["audioInputId" := JUndef]>
                   (<["videoInputId" := JUndef]> ∅)))
    ∅ 0%Z ∅ [] None [] 0 [] [] ∅
    (if sup then [HwGetUserMedia (mkConstraints (MBool true) (MBool true))] else []) [].

Definition mic (id : string) : media_device_info := mkMediaDeviceInfo id "" "audioinput" "".
Definition cam (id : string) : media_device_info := mkMediaDeviceInfo id "" "videoinput" "".

Definition countEnumerations (l : list hw_call) : nat :=
  length (List.filter (fun c => match c with HwEnumerateDevices _ => true | _ => false end) l).

Definition countGetUserMedia (l : list hw_call) : nat :=
  length (List.filter (fun c => match c with HwGetUserMedia _ => true | _ => false end) l).

(** One full enumeration pass: [_updateDevices] issues an enumeration,
    which then resolves with [F]. *)
Definition enumPass (F : list media_device_info) (st : manager) : manager :=
  enumerateDevicesResolved (nextEnumeration st) F (updateDevices st).

(** ** Definitions used by the properties *)

Definition constraintOf (ik : input_kind) (c : constraints) : media_constraint :=
  match ik with AudioInput => c_audio c | VideoInput => c_video c end.

Definition otherMembers (m : media_constraint) : list (string * string) :=
  match m with MObj _ o => o | _ => [] end.

Definition hwFailure1 : js_error := HardwareError "NotReadableError" 1.

Definition hwFailure2 : js_error := HardwareError "NotReadableError" 2.

Definition micTrack : track := mkTrack 7 "audio" (Some "mic1") false.

Definition cam1Track : track := mkTrack 1 "video" (Some "cam1") false.


Definition cam2Constraints : constraints :=
  mkConstraints MUndef (MObj (Some (DIdObj (JStr "cam2") JUndef)) []).


(** The test of the [forEach] callback of [_stopIncompatibleTracks]. *)
Definition conflictsAny (c : constraints) (t : track) : bool :=
  conflicts (c_audio c) "audio" t || conflicts (c_video c) "video" t.


(** The walk [_stopIncompatibleTracks] makes over [ts] when no track is
    registered twice: the tracks left in [_tracks] and the ids of the
    tracks [stop()] is called on, in order.  A live conflicting track is
    stopped and removed, and the track after it moves to its index, which
    [forEach] has already passed: that track is kept without being
    looked at. *)
Fixpoint stopWalk (c : constraints) (ts : list track) : list track * list nat :=
  match ts with
  | [] => ([], [])
  | t :: rest =>
    if conflictsAny c t then
      if track_stopped t then
        let '(r, s) := stopWalk c rest in (t :: r, track_id t :: s)
      else
        match rest with
        | [] => ([], [track_id t])
        | u :: rest' => let '(r, s) := stopWalk c rest' in (u :: r, track_id t :: s)
        end
    else let '(r, s) := stopWalk c rest in (t :: r, s)
  end.


(** What one [_removeDevice] does to the selection of kind [ik]. *)
Definition removalSel (ik : input_kind) (r : device) (v : jsval) : jsval :=
  if String.eqb (kind r) (devKind ik) && strict_eq (JStr (deviceId r)) v then JUndef else v.

(** The identity test [_removeDevice] uses. *)
Definition sameIdentity (a b : device) : bool :=
  String.eqb (deviceId a) (deviceId b) && String.eqb (kind a) (kind b).

(** The record [_updateDevice] writes back for [f] over [o]. *)
Definition updatedRecord (f : media_device_info) (o : device) : device :=
  mkDevice (deviceId o) (mdi_groupId f) (mdi_kind f)
    (if negb (String.eqb (mdi_label f) "") then mdi_label f else label o) (fallbackLabel o).

(** The devices [_updateDevices] removes. *)
Definition removedDevices (F : list media_device_info) (st : manager) : list loc :=
  List.filter (fun l => negb (existsb (sameDevice (deref (heap st) l)) F)) (devices st).

(** The state between the diff and the sticky-default step. *)
Definition afterDiff (F : list media_device_info) (st : manager) : manager :=
  populatePreferences F (fst (diffDevices F st)).

(** The fresh list of the C1 counterexample: [mic2] and a microphone with
    the empty identifier (before permission is granted). *)
Definition freshMics : list media_device_info := [mic "mic2"; mic ""].

(** The state of the C1 counterexample, reached from an empty manager
    by four enumeration passes. *)
Definition emptyPrefFirstState : manager :=
  enumPass [] (enumPass [mic "mic2"] (enumPass [] (enumPass [mic ""] (emptyStorageManager true)))).

(** The identity [(deviceId, kind)] of an enumerated device. *)
Definition mdiIdent (f : media_device_info) : string * string := (mdi_deviceId f, mdi_kind f).

(** Every device of the list is an allocated object. *)
Definition heapWf (s : manager) : Prop :=
  forall l, In l (devices s) -> is_Some (heap s !! l).

(** The first device matching [f] is allocated, and [_updateDevice(f)]
    would leave it as it is. *)
Definition fixedAt (f : media_device_info) (s : manager) : Prop :=
  exists l, List.find (fun l => sameDevice (deref (heap s) l) f) (devices s) = Some l /\
    heap s !! l = Some (deref (heap s) l) /\ updatedRecord f (deref (heap s) l) = deref (heap s) l.

(** Every device of the list matches [F], and the devices [G] are fixed. *)
Definition settledFor (F G : list media_device_info) (s : manager) : Prop :=
  heapWf s /\
  (forall l, In l (devices s) -> existsb (sameDevice (deref (heap s) l)) F = true) /\
  (forall f, In f G -> fixedAt f s).

(** The states of the C9 witness. *)
Definition idemStart : manager := enumPass [mic "old"; mic "m1"] (emptyStorageManager true).

Definition idemFresh : list media_device_info := [mic "m1"; mic "m2"; cam "c1"].

(** ** Definitions used by the further properties *)

(** The number of [addEventListener('devicechange', ...)] calls in a trace. *)
Definition countAddListener (l : list hw_call) : nat :=
  length (List.filter (fun c => match c with HwAddDeviceChangeListener => true | _ => false end) l).

(** The number of [removeEventListener('devicechange', ...)] calls in a trace. *)
Definition countRemoveListener (l : list hw_call) : nat :=
  length (List.filter (fun c => match c with HwRemoveDeviceChangeListener => true | _ => false end) l).

(** The [kind] of the tracks [getAudioTracks()] / [getVideoTracks()] return. *)
Definition trackKind (ik : input_kind) : string :=
  match ik with AudioInput => "audio" | VideoInput => "video" end.

(** The [deviceId] of the settings of the first track of kind [knd] in
    the stream, when it is truthy. *)
Definition negotiatedId (knd : string) (stream : list track) : option string :=
  match List.filter (fun t => String.eqb (track_kind t) knd) stream with
  | t :: _ => match track_settings_deviceId t with
              | Some d => if String.eqb d "" then None else Some d
              | None => None
              end
  | [] => None
  end.

(** The object [_knownDevices[key]] is allocated and its [fallbackLabel] is [fb]. *)
Definition cachedFallback (key : string) (fb : option string) (s : manager) : Prop :=
  exists l, knownDevices s !! key = Some l /\ is_Some (heap s !! l) /\ fallbackLabel (deref (heap s) l) = fb.

(** Reading each preference list back from storage, as the constructor
    does, gives its current value. *)
Definition prefsPersisted (s : manager) : Prop :=
  parsePreferences (getItem "audioInputPreferences" (storage s)) = Some (preferenceAudioInputList s) /\
  parsePreferences (getItem "videoInputPreferences" (storage s)) = Some (preferenceVideoInputList s).

(** The truthiness of a [BrowserStorage.getItem] result. *)
Definition storedTruthy (v : option stored) : bool :=
  match v with
  | None => false
  | Some (SStr s) => negb (String.eqb s "")
  | Some (SJson _) => true
  end.

(** [updatePreferences(kind)]: [promoteMediaDevice] (imported from
    utils/webrtc, not part of this sources) is a parameter; it answers a
    new list or [null] ([None]).  [setItem(key, true)] stores the string
    ['true']. *)
Definition updatePreferences
    (promoteMediaDevice : string -> list device -> list string -> jsval -> option (list string))
    (knd : string) (st : manager) : manager :=
  if String.eqb knd "audioinput" then
    let st := match promoteMediaDevice knd (map (deref (heap st)) (devices st))
                      (preferenceAudioInputList st) (get "audioInputId" st) with
              | Some l => set_storage (setItem "audioInputPreferences" (SJson l) (storage st))
                            (set_preferenceAudioInputList l st)
              | None => st
              end in
    if negb (storedTruthy (getItem "audioInputDevicePreferred" (storage st)))
    then set_storage (setItem "audioInputDevicePreferred" (SStr "true") (storage st)) st
    else st
  else if String.eqb knd "videoinput" then
    let st := match promoteMediaDevice knd (map (deref (heap st)) (devices st))
                      (preferenceVideoInputList st) (get "videoInputId" st) with
              | Some l => set_storage (setItem "videoInputPreferences" (SJson l) (storage st))
                            (set_preferenceVideoInputList l st)
              | None => st
              end in
    if negb (storedTruthy (getItem "videoInputDevicePreferred" (storage st)))
    then set_storage (setItem "videoInputDevicePreferred" (SStr "true") (storage st)) st
    else st
  else st.

(** The key [updatePreferences] sets once a device of the kind was chosen. *)
Definition preferredFlagKey (ik : input_kind) : string :=
  match ik with AudioInput => "audioInputDevicePreferred" | VideoInput => "videoInputDevicePreferred" end.

(** [requestInitialPermissions()] after the [getUserMedia({ audio: true,
    video: true })] it issues settled with [r]: on success each track of
    the stream is stopped; in both cases [_updateDevices()] is called. *)
Definition requestInitialPermissionsSettled (r : gum_response) (st : manager) : manager :=
  match r with
  | GumOk stream => updateDevices (fold_left (fun s t => issue (HwStopTrack (track_id t)) s) stream st)
  | GumErr _ => updateDevices st
  end.

(** ** The conversation list of the left sidebar *)

(** A conversation object of the store: the properties the sidebar reads
    itself, and the others, which only the imported helpers read. *)
Record conversation := mkConversation {
  conv_token : string;                    (* conversation.token *)
  conv_type : Z;                          (* conversation.type *)
  conv_name : string;                     (* conversation.name *)
  conv_displayName : jsval;               (* conversation.displayName *)
  conv_description : jsval;               (* conversation.description *)
  conv_rest : list (string * jsval)       (* the other properties *)
}.

(** The sidebar's state: [filters] and [showArchived] from [setup()], the
    fields of [data()] the methods below use, and [BrowserStorage]. *)
Record sidebar := mkSidebar {
  filters : list string;
  showArchived : bool;
  searchText : string;
  isFocused : bool;
  isNavigating : bool;
  browserStorage : gmap string stored
}.

(** [computed.filteredConversationsByTab], over the value of
    [filteredConversationsList]. *)
Definition filteredConversationsByTab (selectedTab : string) (l : list conversation) : list conversation :=
  if String.eqb selectedTab "personal" then
    List.filter (fun c => negb (truthy (conv_description c)) && truthy (conv_displayName c)) l
  else if String.eqb selectedTab "groups" then
    List.filter (fun c => truthy (conv_description c) && truthy (conv_displayName c)) l
  else l.

Section SidebarHelpers.
(** The helpers the component imports from utils/conversation.ts (not part
    of this sources): [filterConversation(conversation, filters)],
    [shouldIncludeArchived(conversation, showArchived)], [hasCall] and
    [hasUnreadMentions]. *)
Variable filterConversation : conversation -> list string -> bool.
Variable shouldIncludeArchived : conversation -> bool -> bool.
Variable hasCall : conversation -> bool.
Variable hasUnreadMentions : conversation -> bool.

(** [computed.filteredConversationsList]: [conversationsList] is the
    store's list and [token] the value of [getToken()]. *)
Definition filteredConversationsList (s : sidebar) (token : jsval) (conversationsList : list conversation)
    : list conversation :=
  if isFocused s then
    List.filter (fun c => shouldIncludeArchived c (showArchived s)) conversationsList
  else
    let validConversationsCount :=
      length (List.filter (fun c => filterConversation c (filters s)) conversationsList) in
    let filteredConversations :=
      List.filter (fun c => shouldIncludeArchived c (showArchived s) &&
                            (filterConversation c (filters s) || hasCall c ||
                             strict_eq (JStr (conv_token c)) token)) conversationsList in
    if Nat.eqb validConversationsCount 0 && negb (isNavigating s) then [] else filteredConversations.

(** The loop of [handleUnreadMention], from index [i - 1] down to
    [lastConversationInViewport + 1].  [Some r] is the value it leaves in
    [lastUnreadMentionBelowViewportIndex] ([None] for [null]); the loop
    reads [list[-1]] (that is [undefined]) when the viewport index is below
    [-1], which this model does not cover: it gives [None] there. *)
Fixpoint unreadMentionLoop (l : list conversation) (lastConversationInViewport : Z) (i : nat)
    : option (option Z) :=
  match i with
  | O => if Z.ltb lastConversationInViewport (-1) then None else Some None
  | S j =>
      if Z.ltb lastConversationInViewport (Z.of_nat j) then
        match nth_error l j with
        | Some c => if hasUnreadMentions c then Some (Some (Z.of_nat j))
                    else unreadMentionLoop l lastConversationInViewport j
        | None => None
        end
      else Some None
  end.

(** [methods.handleUnreadMention], over the value of
    [filteredConversationsList] and the scroller's
    [getLastItemInViewportIndex()]. *)
Definition handleUnreadMention (l : list conversation) (lastConversationInViewport : Z) : option (option Z) :=
  unreadMentionLoop l lastConversationInViewport (length l).

End SidebarHelpers.

(** An entry of the autocomplete response: [match.id], [match.source] and
    the other properties. *)
Record searchMatch := mkSearchMatch {
  match_id : string;
  match_source : string;
  match_rest : list (string * jsval)
}.

Section SearchConstants.
(** [CONVERSATION.TYPE.ONE_TO_ONE] and [ATTENDEE.ACTOR_TYPE.USERS] of
    constants.ts (not part of this sources). *)
Variable ONE_TO_ONE : Z.
Variable USERS : string.

(** The [reduce] of [fetchPossibleConversations]: the current user's id,
    then the names of the one-to-one conversations, in list order. *)
Definition oneToOneMap (userId : string) (conversationsList : list conversation) : list string :=
  fold_left (fun acc result => if Z.eqb (conv_type result) ONE_TO_ONE then (acc ++ [conv_name result])%list else acc)
    conversationsList [userId].

(** The response of the autocomplete request, as
    [response?.data?.ocs?.data] sees it: [response], [response.data] or
    [response.data.ocs] is nullish; [ocs] is there but [ocs.data] is
    [undefined] or [null]; or [ocs.data] is the list of matches. *)
Inductive autocompleteResponse :=
| ResponseWithoutOcs
| OcsWithoutData
| OcsData (ms : list searchMatch).

(** The value [response?.data?.ocs?.data.filter(...) ?? []] assigns to
    [searchResults]; [None] when evaluating it throws: the optional chain
    stops at a nullish [ocs], but [.filter] is read without [?.], so an
    [ocs] without [data] raises a TypeError. *)
Definition possibleConversationResults (userId : string) (conversationsList : list conversation)
    (r : autocompleteResponse) : option (list searchMatch) :=
  match r with
  | ResponseWithoutOcs => Some []
  | OcsWithoutData => None
  | OcsData ms =>
      Some (List.filter (fun m => negb (String.eqb (match_source m) USERS &&
                                        existsb (String.eqb (match_id m)) (oneToOneMap userId conversationsList))) ms)
  end.

End SearchConstants.

(** How the request of [fetchPossibleConversations] settles: with a
    response, or rejected, [isCancel] telling whether
    [CancelableRequest.isCancel(exception)] holds. *)
Inductive autocompleteOutcome :=
| AutocompleteResolved (r : autocompleteResponse)
| AutocompleteRejected (isCancel : bool).

(** The fields of the sidebar [fetchPossibleConversations] writes, and
    the number of [showError] calls. *)
Record possibleSearch := mkPossibleSearch {
  searchResults : list searchMatch;
  contactsLoading : bool;
  errorsShown : nat
}.

(** [methods.fetchPossibleConversations] for a request that settles with
    [o] ([userId] is [getUserId()] and [conversationsList] the store's
    list); the cancellation of the previous request is not modelled.  The
    [catch] returns on a cancellation and shows an error otherwise; a
    TypeError is not a cancellation. *)
Definition fetchPossibleConversations (ONE_TO_ONE : Z) (USERS : string) (userId : string)
    (conversationsList : list conversation) (o : autocompleteOutcome) (s : possibleSearch) : possibleSearch :=
  let s := mkPossibleSearch (searchResults s) true (errorsShown s) in
  let caught (isCancel : bool) :=
    if isCancel then s else mkPossibleSearch (searchResults s) (contactsLoading s) (S (errorsShown s)) in
  match o with
  | AutocompleteRejected isCancel => caught isCancel
  | AutocompleteResolved r =>
      match possibleConversationResults ONE_TO_ONE USERS userId conversationsList r with
      | Some v => mkPossibleSearch v false (errorsShown s)
      | None => caught false
      end
  end.

(** [computed.isFiltered]. *)
Definition isFiltered (s : sidebar) : bool := negb (Nat.eqb (length (filters s)) 0).

(** [watch.token]: the watcher of the current conversation's token. *)
Definition watchToken (value : jsval) (s : sidebar) : sidebar :=
  if truthy value && isFiltered s then
    mkSidebar (filters s) (showArchived s) (searchText s) (isFocused s) true (browserStorage s)
  else s.

(** [methods.handleFilter]: [filter] is [null] ([None]) or a filter name.
    [BrowserStorage.setItem] stores the array as its string form, the
    names joined by commas. *)
Definition handleFilter (filter : option string) (s : sidebar) : sidebar :=
  let fs :=
    match filter with
    | None => []
    | Some f =>
        if existsb (String.eqb f) (filters s) then
          List.filter (fun g => negb (String.eqb g f)) (filters s)
        else if String.eqb f "unread" || String.eqb f "mentions" then
          (List.filter (fun g => negb (String.eqb g "unread") && negb (String.eqb g "mentions")) (filters s) ++ [f])%list
        else (filters s ++ [f])%list
    end in
  let st := if negb (Nat.eqb (length fs) 0)
            then setItem "filterEnabled" (SStr (String.concat "," fs)) (browserStorage s)
            else removeItem "filterEnabled" (browserStorage s) in
  mkSidebar fs (showArchived s) "" (isFocused s) false st.

(** [String.prototype.split(',')]. *)
Fixpoint splitComma (s : string) : list string :=
  match s with
  | EmptyString => [""]
  | String c s' =>
      let rest := splitComma s' in
      if Ascii.eqb c "," then "" :: rest
      else match rest with
           | w :: ws => String c w :: ws
           | [] => [String c ""]
           end
  end.

(** The initial value of [filters] in [setup()]:
    [BrowserStorage.getItem('filterEnabled')?.split(',') ?? []].  A
    serialised list ([SJson]) is JSON text, which this model does not spell
    out: it gives [None] there; handleFilter never writes one. *)
Definition restoreFilters (v : option stored) : option (list string) :=
  match v with
  | None => Some []
  | Some (SStr s) => Some (splitComma s)
  | Some (SJson _) => None
  end.

(** ** Fetching the conversations *)

(** The state [fetchConversations] reads and writes, with the requests it
    sends ([modifiedSince], [includeLastMessage]) and the number of
    [conversations-received] events it emitted. *)
Record fetchState := mkFetchState {
  isFetchingConversations : bool;
  roomListModifiedBefore : jsval;
  forceFullRoomListRefreshAfterXLoops : Z;
  fetchRequests : list (jsval * Z);
  conversationsReceived : nat
}.

(** The outcome of the [fetchConversations] dispatch: a response with the
    value of its [x-nextcloud-talk-modified-before] header ([JUndef] when
    absent), or an error. *)
Inductive fetchResult :=
| FetchOk (modifiedBefore : jsval)
| FetchErr.

(** [methods.fetchConversations] up to the [await]: the guard, the loop
    counter and the request. *)
Definition fetchConversationsStart (isCompact : bool) (s : fetchState) : fetchState :=
  if isFetchingConversations s then s
  else
    let '(mb, n) :=
      if Z.eqb (forceFullRoomListRefreshAfterXLoops s) 0 then (JNum 0, 10%Z)
      else (roomListModifiedBefore s, (forceFullRoomListRefreshAfterXLoops s - 1)%Z) in
    mkFetchState true mb n
      (fetchRequests s ++ [(mb, if isCompact then 0%Z else 1%Z)])%list
      (conversationsReceived s).

(** [methods.fetchConversations] after the [await]; [signalingInternal] is
    [loadState('spreed', 'signaling_mode') === 'internal']. *)
Definition fetchConversationsSettled (signalingInternal : bool) (r : fetchResult) (s : fetchState) : fetchState :=
  match r with
  | FetchOk h =>
      let mb := if negb signalingInternal && truthy h then h else roomListModifiedBefore s in
      mkFetchState false mb (forceFullRoomListRefreshAfterXLoops s) (fetchRequests s)
        (S (conversationsReceived s))
  | FetchErr =>
      mkFetchState false (roomListModifiedBefore s) (forceFullRoomListRefreshAfterXLoops s)
        (fetchRequests s) (conversationsReceived s)
  end.

(** Calls of [fetchConversations] that each settle before the next one. *)
Definition fetchRounds (signalingInternal : bool) (rounds : list (bool * fetchResult)) (s : fetchState) : fetchState :=
  fold_left (fun s '(isCompact, r) =>
               fetchConversationsSettled signalingInternal r (fetchConversationsStart isCompact s)) rounds s.

(** The two assignments that [watch.isCompact], the
    [force-fetch-all-conversations] message and
    [handleShouldRefreshConversations({ all: true })] make before they
    (directly or debounced) call [fetchConversations]. *)
Definition forceFullRoomListRefresh (s : fetchState) : fetchState :=
  mkFetchState (isFetchingConversations s) (JNum 0) 10%Z (fetchRequests s) (conversationsReceived s).

(** The states of the sidebar witnesses. *)
(** The number of rounds whose request succeeded. *)
Definition okRounds (rounds : list (bool * fetchResult)) : nat :=
  length (List.filter (fun '(_, r) => match r with FetchOk _ => true | FetchErr => false end) rounds).

Definition alice : conversation := mkConversation "abc" 1 "alice" (JStr "Alice") JUndef [].

Definition team : conversation := mkConversation "xyz" 2 "team" (JStr "Team") (JStr "Our team") [("unreadMention", JBool true)].

Definition unreadOnly : sidebar := mkSidebar ["unread"] false "" false false ∅.

Definition fetchStart : fetchState := mkFetchState false (JNum 0) 0%Z [] 0.

(** * Properties *)

Lemma newMediaDevicesManager_empty (sup : bool) :
  newMediaDevicesManager sup ∅ = Some (emptyStorageManager sup).
Proof. destruct sup; reflexivity. Qed.

(** ** Persistence of the selection *)

Lemma storage_set (key : string) (v : jsval) (st : manager) :
  storage (set key v st) = storeDeviceId key v (storage st).
Proof. reflexivity. Qed.

(** C10: [set(key, value)] always fires [change:key]; for a key other than
    [audioInputId] and [videoInputId] it leaves the browser storage
    unchanged, and for the two selection keys a falsy value other than
    [null] removes the stored entry. *)
Theorem set_persistence_frame (key : string) (v : jsval) (st : manager) :
  emitted (set key v st) = (emitted st ++ [(("change:" ++ key)%string, v)])%list /\
  (key <> "audioInputId" -> key <> "videoInputId" -> storage (set key v st) = storage st) /\
  (key = "audioInputId" \/ key = "videoInputId" -> v <> JNull -> truthy v = false ->
     storage (set key v st) = removeItem key (storage st)).
Proof.
  split; [reflexivity|]. rewrite storage_set. unfold storeDeviceId. split.
  - intros Ha Hv. apply String.eqb_neq in Ha, Hv. rewrite Ha, Hv. reflexivity.
  - intros Hk Hn Hf.
    assert (Hsel : negb (String.eqb key "audioInputId") && negb (String.eqb key "videoInputId") = false)
      by (destruct Hk; subst; reflexivity).
    rewrite Hsel. unfold strict_eq. rewrite bool_decide_eq_false_2 by exact Hn. rewrite Hf. reflexivity.
Qed.

Lemma set_persistence_frame_witness :
  storage (set "devices" (JArr []) (emptyStorageManager true)) = storage (emptyStorageManager true) /\
  storage (set "audioInputId" JUndef (emptyStorageManager true))
    = removeItem "audioInputId" (storage (emptyStorageManager true)).
Proof.
  split.
  - apply (proj1 (proj2 (set_persistence_frame "devices" (JArr []) (emptyStorageManager true))));
      discriminate.
  - apply (proj2 (proj2 (set_persistence_frame "audioInputId" JUndef (emptyStorageManager true))));
      [left; reflexivity | discriminate | reflexivity].
Defined.

(** Setting a selection to [null] and constructing a manager over the
    resulting storage: the selection is [null] again. *)
Lemma restore_null (ik : input_kind) (sup : bool) (st m : manager) :
  newMediaDevicesManager sup (storage (set (selKey ik) JNull st)) = Some m ->
  get (selKey ik) m = JNull.
Proof.
  rewrite storage_set. unfold newMediaDevicesManager.
  destruct (parsePreferences _); [|discriminate]. destruct (parsePreferences _); [|discriminate].
  intros H; injection H as <-. unfold get; simpl.
  destruct ik; simpl; unfold storeDeviceId, getItem, setItem; simpl.
  - rewrite lookup_insert_ne by discriminate. rewrite lookup_insert_eq. simpl.
    rewrite lookup_insert_eq. reflexivity.
  - rewrite lookup_insert_ne by discriminate. rewrite lookup_insert_ne by discriminate.
    rewrite lookup_insert_eq. simpl. rewrite lookup_insert_eq. reflexivity.
Qed.

(** Setting a selection to a string other than the storage sentinel and
    constructing a manager over the resulting storage: the selection is
    [undefined]. *)
Lemma restore_string (ik : input_kind) (sup : bool) (st m : manager) (s : string) :
  s <> LOCAL_STORAGE_NULL_DEVICE_ID ->
  newMediaDevicesManager sup (storage (set (selKey ik) (JStr s) st)) = Some m ->
  get (selKey ik) m = JUndef.
Proof.
  intros Hs. rewrite storage_set. unfold newMediaDevicesManager.
  destruct (parsePreferences _); [|discriminate]. destruct (parsePreferences _); [|discriminate].
  intros H; injection H as <-. unfold get; simpl.
  assert (Hr : forall k, bool_decide (getItem k (storeDeviceId k (JStr s) (storage st))
                                       = Some (SStr LOCAL_STORAGE_NULL_DEVICE_ID)) = false
               \/ (k <> "audioInputId" /\ k <> "videoInputId")).
  { intros k. unfold storeDeviceId.
    destruct (String.eqb k "audioInputId") eqn:Ea; destruct (String.eqb k "videoInputId") eqn:Ev;
      try (right; split; apply String.eqb_neq; assumption);
      left; simpl; unfold getItem, setItem, removeItem;
      (destruct (String.eqb s "") eqn:Es; simpl;
       [rewrite lookup_delete_eq; apply bool_decide_eq_false_2; discriminate
       |rewrite lookup_insert_eq; apply bool_decide_eq_false_2; intros Heq; injection Heq; auto]). }
  destruct ik; simpl.
  - rewrite lookup_insert_ne by discriminate. rewrite lookup_insert_eq. simpl.
    destruct (Hr "audioInputId") as [->|[? _]]; [reflexivity|congruence].
  - rewrite lookup_insert_ne by discriminate. rewrite lookup_insert_ne by discriminate.
    rewrite lookup_insert_eq. simpl.
    destruct (Hr "videoInputId") as [->|[_ ?]]; [reflexivity|congruence].
Qed.

(** C4 (counterexample): storing the identifier ["mic1"] and constructing
    a new manager over that storage gives [undefined], not ["mic1"]. *)
Lemma selection_roundtrip_string_cex :
  option_map (get "audioInputId")
    (newMediaDevicesManager true (storage (set "audioInputId" (JStr "mic1") (emptyStorageManager true))))
  = Some JUndef.
Proof. reflexivity. Qed.

(** C4 (amended): for each selection key, storing [null] with [set] and
    constructing a new manager over the same storage gives [null] again
    (not [undefined], not the sentinel string); storing any string other
    than the sentinel gives [undefined]: identifiers are not restored. *)
Theorem selection_roundtrip (ik : input_kind) (sup : bool) (st : manager) :
  (forall m, newMediaDevicesManager sup (storage (set (selKey ik) JNull st)) = Some m ->
     get (selKey ik) m = JNull) /\
  (forall (s : string) m, s <> LOCAL_STORAGE_NULL_DEVICE_ID ->
     newMediaDevicesManager sup (storage (set (selKey ik) (JStr s) st)) = Some m ->
     get (selKey ik) m = JUndef).
Proof.
  split.
  - intros m. apply restore_null.
  - intros s m Hs. apply restore_string; exact Hs.
Qed.

Lemma selection_roundtrip_witness :
  option_map (get "audioInputId")
    (newMediaDevicesManager true (storage (set "audioInputId" JNull (emptyStorageManager true))))
  = Some JNull /\
  option_map (get "videoInputId")
    (newMediaDevicesManager true (storage (set "videoInputId" (JStr "cam1") (emptyStorageManager true))))
  = Some JUndef.
Proof.
  split.
  - destruct (newMediaDevicesManager true _) as [m|] eqn:H; [|vm_compute in H; discriminate].
    simpl. f_equal. exact (proj1 (selection_roundtrip AudioInput true (emptyStorageManager true)) m H).
  - destruct (newMediaDevicesManager true _) as [m|] eqn:H; [|vm_compute in H; discriminate].
    simpl. f_equal.
    exact (proj2 (selection_roundtrip VideoInput true (emptyStorageManager true)) "cam1" m
             ltac:(discriminate) H).
Defined.

(** ** Unsupported environment *)

(** C8: when the hardware capability is missing, [getUserMedia] rejects
    with a [NotSupportedError] and leaves the state, hence also the log of
    hardware calls, unchanged. *)
Theorem getUserMedia_unsupported (c : constraints) (enum : option (list media_device_info))
    (r1 r2 : gum_response) (st : manager) :
  supported st = false ->
  getUserMedia c enum r1 r2 st = (st, c, Rejected notSupportedError).
Proof. intros H. unfold getUserMedia. rewrite H. reflexivity. Qed.

Lemma getUserMedia_unsupported_witness :
  supported (emptyStorageManager false) = false /\
  getUserMedia (mkConstraints (MBool true) MUndef) None (GumOk []) (GumOk [])
    (emptyStorageManager false)
  = (emptyStorageManager false, mkConstraints (MBool true) MUndef, Rejected notSupportedError).
Proof.
  split; [reflexivity|].
  apply getUserMedia_unsupported. reflexivity.
Defined.

(** ** Enumeration requests *)

(** C2 (counterexample): after [enableDeviceEvents] an enumeration is
    pending; a further [_updateDevices] issues a second hardware
    enumeration, and both are in flight. *)
Lemma updateDevices_second_enumeration_cex :
  let st := enableDeviceEvents (emptyStorageManager true) in
  pendingEnumerate st = Some 0 /\ countEnumerations (hw st) = 1 /\
  countEnumerations (hw (updateDevices st)) = 2 /\ inflight (updateDevices st) = [0; 1].
Proof. repeat split. Qed.

(** C2 (amended): every [_updateDevices] issues a new hardware enumeration
    and points the pending-enumeration marker at it, whether or not an
    enumeration is already in flight; the earlier ones stay in flight. *)
Theorem updateDevices_issues_enumeration (st : manager) :
  hw (updateDevices st) = (hw st ++ [HwEnumerateDevices (nextEnumeration st)])%list /\
  pendingEnumerate (updateDevices st) = Some (nextEnumeration st) /\
  inflight (updateDevices st) = (inflight st ++ [nextEnumeration st])%list.
Proof. repeat split. Qed.

(** ** Constraint resolution *)

(** C5 (counterexample): the tests of [_getUserMediaInternal] are
    truthiness tests, so a caller's [deviceId: ''] counts as absent and is
    replaced by the selection, and an empty-string selection is not
    injected: the request still asks for any microphone. *)
Lemma resolveConstraints_empty_ids_cex :
  c_audio (resolveConstraints (mkConstraints (MObj (Some (DIdStr "")) []) MUndef)
             (set "audioInputId" (JStr "mic1") (emptyStorageManager true)))
    = MObj (Some (DIdObj (JStr "mic1") JUndef)) [] /\
  c_audio (resolveConstraints (mkConstraints (MBool true) MUndef)
             (set "audioInputId" (JStr "") (emptyStorageManager true))) = MBool true.
Proof. vm_compute. split; reflexivity. Qed.

(** C5 (amended): for each input kind, a caller's truthy [deviceId] is
    kept; a kind the caller did not request is left as it is; a requested
    kind without a truthy [deviceId] (absent or ['']) gets
    [deviceId: {exact: id}], keeping its other members, when the
    selection is a non-empty identifier [id], is turned off ([false]) when
    the selection is [null], and is left as it is when the selection is
    any other falsy value ([undefined] or ['']). *)
Theorem resolveConstraints_selection (ik : input_kind) (c : constraints) (st : manager) :
  let m := constraintOf ik c in
  let m' := constraintOf ik (resolveConstraints c st) in
  let sel := get (selKey ik) st in
  (mc_deviceId_truthy m = true -> m' = m) /\
  (mc_truthy m = false -> m' = m) /\
  (forall s, mc_truthy m = true -> mc_deviceId_truthy m = false -> sel = JStr s -> s <> "" ->
     m' = MObj (Some (DIdObj (JStr s) JUndef)) (otherMembers m)) /\
  (mc_truthy m = true -> mc_deviceId_truthy m = false -> sel = JNull -> m' = MBool false) /\
  (mc_truthy m = true -> mc_deviceId_truthy m = false -> truthy sel = false -> sel <> JNull -> m' = m).
Proof.
  assert (Hinj : forall sel m,
    (mc_deviceId_truthy m = true -> injectSelection sel m = m) /\
    (mc_truthy m = false -> injectSelection sel m = m) /\
    (forall s, mc_truthy m = true -> mc_deviceId_truthy m = false -> sel = JStr s -> s <> "" ->
       injectSelection sel m = MObj (Some (DIdObj (JStr s) JUndef)) (otherMembers m)) /\
    (mc_truthy m = true -> mc_deviceId_truthy m = false -> sel = JNull ->
       injectSelection sel m = MBool false) /\
    (mc_truthy m = true -> mc_deviceId_truthy m = false -> truthy sel = false -> sel <> JNull ->
       injectSelection sel m = m)).
  { intros sel m. unfold injectSelection. repeat split.
    - intros H. rewrite H, andb_false_r. reflexivity.
    - intros H. rewrite H. reflexivity.
    - intros s H1 H2 -> Hs. rewrite H1, H2. simpl.
      apply String.eqb_neq in Hs. rewrite Hs. simpl.
      destruct m; try discriminate; reflexivity.
    - intros H1 H2 ->. rewrite H1, H2. reflexivity.
    - intros H1 H2 H3 H4. rewrite H1, H2, H3. simpl.
      unfold strict_eq. rewrite bool_decide_eq_false_2 by exact H4. reflexivity. }
  destruct ik; simpl; apply Hinj.
Qed.

Lemma resolveConstraints_selection_witness :
  let st := set "audioInputId" (JStr "mic1") (set "videoInputId" JNull (emptyStorageManager true)) in
  c_audio (resolveConstraints (mkConstraints (MBool true) (MBool true)) st)
    = MObj (Some (DIdObj (JStr "mic1") JUndef)) [] /\
  c_video (resolveConstraints (mkConstraints (MBool true) (MBool true)) st) = MBool false /\
  c_audio (resolveConstraints (mkConstraints (MObj (Some (DIdStr "mic2")) []) MUndef) st)
    = MObj (Some (DIdStr "mic2")) [] /\
  c_video (resolveConstraints (mkConstraints MUndef MUndef) st) = MUndef /\
  c_audio (resolveConstraints (mkConstraints (MBool true) MUndef) (emptyStorageManager true)) = MBool true.
Proof.
  intros st. split; [|split; [|split; [|split]]].
  - apply (proj1 (proj2 (proj2 (resolveConstraints_selection AudioInput
             (mkConstraints (MBool true) (MBool true)) st))) "mic1");
      [reflexivity | reflexivity | reflexivity | discriminate].
  - apply (proj1 (proj2 (proj2 (proj2 (resolveConstraints_selection VideoInput
             (mkConstraints (MBool true) (MBool true)) st))))); reflexivity.
  - apply (proj1 (resolveConstraints_selection AudioInput
             (mkConstraints (MObj (Some (DIdStr "mic2")) []) MUndef) st)); reflexivity.
  - apply (proj1 (proj2 (resolveConstraints_selection VideoInput
             (mkConstraints MUndef MUndef) st))); reflexivity.
  - apply (proj2 (proj2 (proj2 (proj2 (resolveConstraints_selection AudioInput
             (mkConstraints (MBool true) MUndef) (emptyStorageManager true))))));
      [reflexivity | reflexivity | reflexivity | discriminate].
Defined.

(** ** Acquisition failures *)

(** C7 (failing input): with no enumeration pending, a rejected hardware
    request is reported to the caller once, with its own error.  With an
    enumeration pending (right after [enableDeviceEvents]), the [catch]
    in [getUserMedia] also catches that rejection and calls
    [_getUserMediaInternal] again: a second hardware request is issued,
    and the caller gets the second request's outcome instead of the
    first error. *)
Theorem getUserMedia_retries_when_enumeration_pending :
  let c := mkConstraints (MBool true) MUndef in
  let st0 := emptyStorageManager true in
  let st := enableDeviceEvents st0 in
  (let '(st', _, o) := getUserMedia c None (GumErr hwFailure1) (GumErr hwFailure2) st0 in
     o = Rejected hwFailure1 /\ countGetUserMedia (hw st') = countGetUserMedia (hw st0) + 1) /\
  pendingEnumerate st = Some 0 /\
  (let '(st', _, o) := getUserMedia c (Some []) (GumErr hwFailure1) (GumErr hwFailure2) st in
     o = Rejected hwFailure2 /\ countGetUserMedia (hw st') = countGetUserMedia (hw st) + 2) /\
  (let '(st', _, o) := getUserMedia c (Some []) (GumErr hwFailure1) (GumOk [micTrack]) st in
     o = Resolved [micTrack] /\ countGetUserMedia (hw st') = countGetUserMedia (hw st) + 2).
Proof. vm_compute. repeat split. Qed.

(** ** Fallback labels *)

(** C3 (failing input): an enumeration listing the ["default"] microphone
    and then the microphone ["m1"] labels ["m1"] as "Microphone 2": the
    count of known microphones leaves out [''] but not ["default"]. *)
Theorem fallbackLabel_counts_default_device :
  let st := enumerateDevicesResolved 0 [mic "default"; mic "m1"]
              (updateDevices (emptyStorageManager true)) in
  map (fun l => (deviceId (deref (heap st) l), fallbackLabel (deref (heap st) l))) (devices st)
  = [("default", Some "Default"); ("m1", Some "Microphone 2")].
Proof. vm_compute. reflexivity. Qed.

Lemma registerStream_tracks (stream : list track) (st : manager) :
  tracks (registerStream stream st) = (tracks st ++ stream)%list /\
  hw (registerStream stream st) = hw st /\
  nextEnumeration (registerStream stream st) = nextEnumeration st.
Proof.
  revert st. induction stream as [|t stream IH]; intros st; simpl.
  - rewrite app_nil_r. auto.
  - destruct (IH (registerTrack t st)) as (-> & -> & ->). simpl. rewrite <- app_assoc. auto.
Qed.


(** ** Conflicting tracks *)

Lemma conflicts_kind (m : media_constraint) (knd : string) (t : track) :
  conflicts m knd t = true -> track_kind t = knd.
Proof.
  unfold conflicts. destruct m as [| |[d|] o]; try discriminate.
  intros H. apply andb_prop in H as [H _]. apply andb_prop in H as [_ H].
  apply String.eqb_eq in H. exact H.
Qed.

Lemma stopIfIncompatible_eq (c : constraints) (t : track) (st : manager) :
  stopIfIncompatible c t st = if conflictsAny c t then stopTrack t st else st.
Proof.
  unfold stopIfIncompatible, conflictsAny.
  destruct (conflicts (c_audio c) "audio" t) eqn:Ea; simpl.
  - destruct (conflicts (c_video c) "video" t) eqn:Ev; [|reflexivity].
    apply conflicts_kind in Ea. apply conflicts_kind in Ev. congruence.
  - reflexivity.
Qed.

Lemma forEachTracks_past (c : constraints) (n k : nat) (st : manager) :
  length (tracks st) <= k -> forEachTracks c n k st = st.
Proof.
  revert k st. induction n as [|n IH]; intros k st H; simpl; [reflexivity|].
  rewrite (proj2 (List.nth_error_None (tracks st) k) H). apply IH. exact (le_S _ _ H).
Qed.

Lemma filter_id_absent (i : nat) (ts : list track) :
  ~ In i (map track_id ts) -> List.filter (fun u => negb (Nat.eqb (track_id u) i)) ts = ts.
Proof.
  induction ts as [|u ts IH]; simpl; intros H; [reflexivity|].
  destruct (Nat.eqb_spec (track_id u) i); [tauto|]. simpl. f_equal. apply IH. tauto.
Qed.

Lemma filter_registered_once (t : track) (pre rest : list track) :
  NoDup (map track_id (pre ++ t :: rest)) ->
  List.filter (fun u => negb (Nat.eqb (track_id u) (track_id t))) (pre ++ t :: rest) = (pre ++ rest)%list.
Proof.
  rewrite map_app. simpl. intros H. apply NoDup_ListNoDup, List.NoDup_remove_2 in H.
  rewrite List.filter_app. simpl. rewrite Nat.eqb_refl. simpl.
  rewrite !filter_id_absent; [reflexivity| |]; intros Hi; apply H; apply in_or_app; tauto.
Qed.

Lemma nodup_drop (t : track) (pre rest : list track) :
  NoDup (map track_id (pre ++ t :: rest)) -> NoDup (map track_id (pre ++ rest)).
Proof. rewrite !map_app, !NoDup_ListNoDup. simpl. apply List.NoDup_remove_1. Qed.

(** The [forEach] of [_stopIncompatibleTracks], from index [length pre]
    on, when the tracks before that index are [pre]. *)
Lemma forEachTracks_walk (c : constraints) (n : nat) (pre rest : list track) (st : manager) :
  tracks st = (pre ++ rest)%list -> NoDup (map track_id (pre ++ rest)) -> length rest <= n ->
  forEachTracks c n (length pre) st =
  set_tracks (pre ++ fst (stopWalk c rest))%list
    (set_hw (hw st ++ map HwStopTrack (snd (stopWalk c rest)))%list st).
Proof.
  revert pre rest st. induction n as [|n IH]; intros pre rest st Ht Hnd Hn.
  - destruct rest as [|t rest]; [|simpl in Hn; lia]. simpl.
    rewrite !app_nil_r in *. rewrite <- Ht. destruct st; reflexivity.
  - destruct rest as [|t rest].
    + rewrite app_nil_r in Ht. simpl.
      rewrite (proj2 (List.nth_error_None (tracks st) (length pre))) by (rewrite Ht; lia).
      rewrite forEachTracks_past by (rewrite Ht; lia).
      rewrite !app_nil_r, <- Ht. destruct st; reflexivity.
    + simpl. rewrite Ht, List.nth_error_app2, Nat.sub_diag by lia. simpl.
      rewrite stopIfIncompatible_eq.
      simpl in Hn.
      destruct (conflictsAny c t) eqn:Ec.
      * unfold stopTrack. destruct (track_stopped t) eqn:Es.
        -- replace (S (length pre)) with (length (pre ++ [t])) by (rewrite length_app; simpl; lia).
           rewrite (IH (pre ++ [t])%list rest).
           2: { simpl. rewrite Ht, <- app_assoc. reflexivity. }
           2: { rewrite <- app_assoc. exact Hnd. }
           2: { lia. }
           destruct (stopWalk c rest) as [r s]. simpl.
           destruct st; simpl; rewrite <- !app_assoc; reflexivity.
        -- simpl. rewrite Ht, filter_registered_once by exact Hnd.
           destruct rest as [|u rest'].
           ++ rewrite forEachTracks_past by (simpl; rewrite app_nil_r; lia).
              simpl. destruct st; simpl; rewrite !app_nil_r; reflexivity.
           ++ replace (S (length pre)) with (length (pre ++ [u])) by (rewrite length_app; simpl; lia).
              simpl in Hn.
              rewrite (IH (pre ++ [u])%list rest').
              2: { simpl. rewrite <- app_assoc. reflexivity. }
              2: { rewrite <- app_assoc. exact (nodup_drop t pre (u :: rest') Hnd). }
              2: { lia. }
              destruct (stopWalk c rest') as [r s]. simpl.
              destruct st; simpl; rewrite <- !app_assoc; reflexivity.
      * replace (S (length pre)) with (length (pre ++ [t])) by (rewrite length_app; simpl; lia).
        rewrite (IH (pre ++ [t])%list rest).
        2: { rewrite Ht, <- app_assoc. reflexivity. }
        2: { rewrite <- app_assoc. exact Hnd. }
        2: { lia. }
        destruct (stopWalk c rest) as [r s]. simpl.
        destruct st; simpl; rewrite <- !app_assoc; reflexivity.
Qed.

Lemma stopIncompatibleTracks_walk (c : constraints) (st : manager) :
  NoDup (map track_id (tracks st)) ->
  stopIncompatibleTracks c st =
  set_tracks (fst (stopWalk c (tracks st)))
    (set_hw (hw st ++ map HwStopTrack (snd (stopWalk c (tracks st))))%list st).
Proof.
  intros H. unfold stopIncompatibleTracks.
  apply (forEachTracks_walk c _ [] (tracks st) st); [reflexivity | exact H | lia].
Qed.






(** ** The diff engine: frame lemmas *)

Lemma get_setAttr_eq (key : string) (v : jsval) (s : manager) : get key (setAttr key v s) = v.
Proof. unfold get, setAttr. simpl. rewrite lookup_insert_eq. reflexivity. Qed.

Lemma get_setAttr_ne (key key' : string) (v : jsval) (s : manager) :
  key <> key' -> get key (setAttr key' v s) = get key s.
Proof. intros H. unfold get, setAttr. simpl. rewrite lookup_insert_ne by congruence. reflexivity. Qed.

Lemma selKey_not_devices (ik : input_kind) : selKey ik <> "devices".
Proof. destruct ik; discriminate. Qed.

Lemma devices_setDevices (l : list loc) (s : manager) : devices (setDevices l s) = l.
Proof. unfold devices, setDevices, setAttr. simpl. rewrite lookup_insert_eq. reflexivity. Qed.

Lemma devices_setAttr_sel (ik : input_kind) (v : jsval) (s : manager) :
  devices (setAttr (selKey ik) v s) = devices s.
Proof.
  unfold devices, setAttr. simpl. rewrite lookup_insert_ne; [reflexivity|].
  destruct ik; discriminate.
Qed.

#[local] Hint Resolve selKey_not_devices : core.

Lemma removeDevice_heap (l : loc) (s : manager) : heap (removeDevice l s) = heap s.
Proof. unfold removeDevice. destruct (_ && _); [reflexivity|]. destruct (_ && _); reflexivity. Qed.

Lemma removeDevice_frame (l : loc) (s : manager) :
  knownDevices (removeDevice l s) = knownDevices s /\
  preferenceAudioInputList (removeDevice l s) = preferenceAudioInputList s /\
  preferenceVideoInputList (removeDevice l s) = preferenceVideoInputList s /\
  emitted (removeDevice l s) = emitted s.
Proof. unfold removeDevice. destruct (_ && _); [auto|]. destruct (_ && _); auto. Qed.

Lemma removeDevice_devices (l : loc) (s : manager) :
  devices (removeDevice l s) =
  removeFirst (fun l' => sameIdentity (deref (heap s) l') (deref (heap s) l)) (devices s).
Proof.
  unfold removeDevice.
  destruct (_ && _); [rewrite (devices_setAttr_sel AudioInput)|destruct (_ && _);
    [rewrite (devices_setAttr_sel VideoInput)|]]; apply devices_setDevices.
Qed.

Lemma removeDevice_sel (ik : input_kind) (l : loc) (s : manager) :
  get (selKey ik) (removeDevice l s) = removalSel ik (deref (heap s) l) (get (selKey ik) s).
Proof.
  unfold removeDevice, removalSel. cbn zeta.
  match goal with |- context [setDevices ?L s] => remember (setDevices L s) as s1 eqn:Hs1 end.
  assert (Hg : forall k, k <> "devices" -> get k s1 = get k s)
    by (intros k Hk; subst s1; apply get_setAttr_ne; exact Hk).
  set (r := deref (heap s) l).
  rewrite !Hg by discriminate.
  destruct (String.eqb (kind r) "audioinput") eqn:Ka.
  - apply String.eqb_eq in Ka.
    destruct ik; simpl; rewrite ?Ka; simpl.
    + destruct (strict_eq _ (get "audioInputId" s)); simpl;
        [apply get_setAttr_eq | apply Hg; discriminate].
    + destruct (strict_eq _ (get "audioInputId" s)); simpl;
        [rewrite get_setAttr_ne by discriminate; apply Hg; discriminate | apply Hg; discriminate].
  - destruct ik; simpl.
    + rewrite Ka. simpl.
      destruct (String.eqb (kind r) "videoinput" && _);
        [rewrite get_setAttr_ne by discriminate|]; apply Hg; discriminate.
    + destruct (String.eqb (kind r) "videoinput" && strict_eq _ _);
        [apply get_setAttr_eq | apply Hg; discriminate].
Qed.

Lemma removals_spec (ik : input_kind) (R : list loc) (s : manager) :
  let s' := fold_left (fun s l => removeDevice l s) R s in
  heap s' = heap s /\
  get (selKey ik) s' = fold_left (fun v l => removalSel ik (deref (heap s) l) v) R (get (selKey ik) s).
Proof.
  revert s. induction R as [|l R IH]; intros s; simpl; [auto|].
  destruct (IH (removeDevice l s)) as [Hh Hs]. rewrite Hh, removeDevice_heap. split; [reflexivity|].
  rewrite Hs, removeDevice_sel, removeDevice_heap. reflexivity.
Qed.

Lemma removals_frame (R : list loc) (s : manager) :
  let s' := fold_left (fun s l => removeDevice l s) R s in
  knownDevices s' = knownDevices s /\
  preferenceAudioInputList s' = preferenceAudioInputList s /\
  preferenceVideoInputList s' = preferenceVideoInputList s /\
  emitted s' = emitted s.
Proof.
  revert s. induction R as [|l R IH]; intros s; simpl; [auto|].
  destruct (IH (removeDevice l s)) as (H1 & H2 & H3 & H4).
  destruct (removeDevice_frame l s) as (G1 & G2 & G3 & G4). rewrite H1, H2, H3, H4, G1, G2, G3, G4. auto.
Qed.

Lemma removeFirst_keep (p : loc -> bool) (x : loc) (l : list loc) :
  p x = false -> In x l -> In x (removeFirst p l).
Proof.
  intros Hp. induction l as [|y l IH]; simpl; [auto|].
  intros [<-|Hin].
  - rewrite Hp. left; reflexivity.
  - destruct (p y); [exact Hin | right; apply IH; exact Hin].
Qed.

Lemma removeFirst_incl (p : loc -> bool) (x : loc) (l : list loc) :
  In x (removeFirst p l) -> In x l.
Proof.
  induction l as [|y l IH]; simpl; [auto|].
  destruct (p y); [right; exact H|]. intros [<-|Hin]; [left; reflexivity | right; apply IH; exact Hin].
Qed.

(** A device whose identity is not among the removed ones survives the
    removals. *)
Lemma removals_keep (R : list loc) (s : manager) (x : loc) :
  In x (devices s) ->
  (forall r, In r R -> sameIdentity (deref (heap s) x) (deref (heap s) r) = false) ->
  In x (devices (fold_left (fun s l => removeDevice l s) R s)).
Proof.
  revert s. induction R as [|r R IH]; intros s Hin Hr; simpl; [exact Hin|].
  apply IH.
  - rewrite removeDevice_devices. apply removeFirst_keep; [apply Hr; left; reflexivity | exact Hin].
  - intros r' Hr'. rewrite removeDevice_heap. apply Hr. right; exact Hr'.
Qed.

Lemma removals_incl (R : list loc) (s : manager) (x : loc) :
  In x (devices (fold_left (fun s l => removeDevice l s) R s)) -> In x (devices s).
Proof.
  revert s. induction R as [|r R IH]; intros s Hin; simpl in *; [exact Hin|].
  apply IH in Hin. rewrite removeDevice_devices in Hin. eapply removeFirst_incl; exact Hin.
Qed.

Lemma deref_insert (h : gmap loc device) (l l' : loc) (d : device) :
  deref (<[l := d]> h) l' = if Nat.eq_dec l l' then d else deref h l'.
Proof.
  unfold deref. destruct (Nat.eq_dec l l') as [<-|Hne].
  - rewrite lookup_insert_eq. reflexivity.
  - rewrite lookup_insert_ne by exact Hne. reflexivity.
Qed.

Lemma sameDevice_ident (a b : device) (m : media_device_info) :
  deviceId a = deviceId b -> kind a = kind b -> sameDevice a m = sameDevice b m.
Proof. intros H1 H2. unfold sameDevice. rewrite H1, H2. reflexivity. Qed.

Lemma sameDevice_kind (d : device) (m : media_device_info) :
  sameDevice d m = true -> deviceId d = mdi_deviceId m /\ kind d = mdi_kind m.
Proof.
  unfold sameDevice. intros H. apply andb_true_iff in H as [H1 H2].
  apply String.eqb_eq in H1, H2. auto.
Qed.

Lemma updateDevice_spec (f : media_device_info) (s s' : manager) :
  updateDevice f s = Some s' ->
  exists l, In l (devices s) /\ sameDevice (deref (heap s) l) f = true /\
    List.find (fun l => sameDevice (deref (heap s) l) f) (devices s) = Some l /\
    s' = set_heap (<[l := updatedRecord f (deref (heap s) l)]> (heap s)) s.
Proof.
  unfold updateDevice. destruct (List.find _ _) as [l|] eqn:E; [|discriminate].
  intros H. injection H as <-. pose proof E as E'. apply find_some in E' as [Hin Hs].
  exists l. auto.
Qed.

Lemma updatedRecord_ident (f : media_device_info) (o : device) :
  sameDevice o f = true ->
  deviceId (updatedRecord f o) = deviceId o /\ kind (updatedRecord f o) = kind o.
Proof. intros H. apply sameDevice_kind in H as [_ H2]. simpl. auto. Qed.

Lemma updateDevice_none (f : media_device_info) (s : manager) :
  updateDevice f s = None ->
  forall l, In l (devices s) -> sameDevice (deref (heap s) l) f = false.
Proof.
  unfold updateDevice. destruct (List.find _ _) eqn:E; [discriminate|].
  intros _ l Hin. exact (find_none _ _ E l Hin).
Qed.

(** [updatedDevices.forEach(_updateDevice)] changes only device objects,
    and keeps their identities. *)
Lemma updateAll_frame (fs : list media_device_info) (s : manager) :
  exists h, fst (updateAll fs s) = set_heap h s /\
    (forall l, deviceId (deref h l) = deviceId (deref (heap s) l) /\
               kind (deref h l) = kind (deref (heap s) l)).
Proof.
  revert s. induction fs as [|f fs IH]; intros s; simpl.
  - exists (heap s). split; [destruct s; reflexivity | auto].
  - destruct (updateDevice f s) as [s'|] eqn:E.
    + apply updateDevice_spec in E as (l & _ & Hs & _ & ->).
      destruct (IH (set_heap (<[l := updatedRecord f (deref (heap s) l)]> (heap s)) s)) as (h & Hh & Hid).
      exists h. split; [rewrite Hh; reflexivity|].
      intros l'. rewrite !(proj1 (Hid l')), !(proj2 (Hid l')). simpl. rewrite deref_insert.
      destruct (Nat.eq_dec l l') as [<-|]; [apply updatedRecord_ident; exact Hs | auto].
    + exists (heap s). split; [destruct s; reflexivity | auto].
Qed.

Lemma updateAll_ok (fs : list media_device_info) (s : manager) :
  (forall f, In f fs -> exists l, In l (devices s) /\ sameDevice (deref (heap s) l) f = true) ->
  snd (updateAll fs s) = true.
Proof.
  revert s. induction fs as [|f fs IH]; intros s Hf; simpl; [reflexivity|].
  destruct (updateDevice f s) as [s'|] eqn:E.
  - pose proof E as E'. apply updateDevice_spec in E' as (l & _ & Hs & _ & ->).
    apply IH. intros g Hg. destruct (Hf g (or_intror Hg)) as (l' & Hin & Hl').
    exists l'. split; [exact Hin|]. simpl. rewrite deref_insert.
    destruct (Nat.eq_dec l l') as [<-|]; [|exact Hl'].
    rewrite <- Hl'. apply sameDevice_ident; apply updatedRecord_ident; exact Hs.
  - destruct (Hf f (or_introl eq_refl)) as (l & Hin & Hl).
    rewrite (updateDevice_none f s E l Hin) in Hl. discriminate.
Qed.

Lemma addDevice_frame (ik : input_kind) (f : media_device_info) (s : manager) :
  get (selKey ik) (addDevice f s) = get (selKey ik) s /\
  preferenceAudioInputList (addDevice f s) = preferenceAudioInputList s /\
  preferenceVideoInputList (addDevice f s) = preferenceVideoInputList s /\
  emitted (addDevice f s) = emitted s.
Proof.
  unfold addDevice, setDevices. repeat split.
  rewrite get_setAttr_ne by auto. reflexivity.
Qed.

Lemma adds_frame (ik : input_kind) (A : list media_device_info) (s : manager) :
  let s' := fold_left (fun s f => addDevice f s) A s in
  get (selKey ik) s' = get (selKey ik) s /\
  preferenceAudioInputList s' = preferenceAudioInputList s /\
  preferenceVideoInputList s' = preferenceVideoInputList s /\
  emitted s' = emitted s.
Proof.
  revert s. induction A as [|f A IH]; intros s; simpl; [auto|].
  destruct (IH (addDevice f s)) as (H1 & H2 & H3 & H4).
  destruct (addDevice_frame ik f s) as (G1 & G2 & G3 & G4).
  rewrite H1, H2, H3, H4, G1, G2, G3, G4. auto.
Qed.

(** No [_updateDevice] of an enumeration pass throws: every updated
    device survives the removals. *)
Lemma diffDevices_ok (F : list media_device_info) (st : manager) :
  snd (diffDevices F st) = true.
Proof.
  unfold diffDevices. cbn zeta.
  set (s1 := fold_left (fun s l => removeDevice l s) _ st).
  assert (Hh : heap s1 = heap st) by exact (proj1 (removals_spec AudioInput _ st)).
  destruct (updateAll _ s1) as [s2 b] eqn:E.
  assert (Hb : b = true); [|subst b; reflexivity].
  replace b with (snd (updateAll (List.filter (fun f => existsb (fun l => sameDevice (deref (heap st) l) f)
                     (devices st)) F) s1)) by (rewrite E; reflexivity).
  apply updateAll_ok. intros f Hf. apply filter_In in Hf as [HfF Hex].
  apply existsb_exists in Hex as (l & Hin & Hl).
  exists l. rewrite Hh. split; [|exact Hl].
  apply removals_keep; [exact Hin|].
  intros r Hr. apply filter_In in Hr as [_ Hr].
  destruct (sameIdentity (deref (heap st) l) (deref (heap st) r)) eqn:Eq; [|reflexivity].
  exfalso. unfold sameIdentity in Eq. apply andb_true_iff in Eq as [E1 E2].
  apply String.eqb_eq in E1, E2.
  apply negb_true_iff in Hr.
  assert (Ht : existsb (sameDevice (deref (heap st) r)) F = true); [|congruence].
  apply existsb_exists. exists f. split; [exact HfF|].
  rewrite <- Hl. apply sameDevice_ident; auto.
Qed.

Lemma diffDevices_frame (ik : input_kind) (F : list media_device_info) (st : manager) :
  let s := fst (diffDevices F st) in
  get (selKey ik) s =
    fold_left (fun v l => removalSel ik (deref (heap st) l) v) (removedDevices F st) (get (selKey ik) st) /\
  preferenceAudioInputList s = preferenceAudioInputList st /\
  preferenceVideoInputList s = preferenceVideoInputList st /\
  emitted s = emitted st.
Proof.
  unfold diffDevices. cbn zeta.
  set (s1 := fold_left (fun s l => removeDevice l s) _ st).
  destruct (removals_spec ik (removedDevices F st) st) as [_ Hsel].
  destruct (removals_frame (removedDevices F st) st) as (_ & Ha & Hv & He).
  destruct (updateAll_frame (List.filter (fun f => existsb (fun l => sameDevice (deref (heap st) l) f)
                     (devices st)) F) s1) as (h & Hh & _).
  destruct (updateAll _ s1) as [s2 b] eqn:E. simpl in Hh. subst s2.
  destruct b; simpl.
  - destruct (adds_frame ik (List.filter (fun f => negb (existsb (fun l => sameDevice (deref (heap st) l) f)
                     (devices st))) F) (set_heap h s1)) as (G1 & G2 & G3 & G4).
    rewrite G1, G2, G3, G4. exact (conj Hsel (conj Ha (conj Hv He))).
  - exact (conj Hsel (conj Ha (conj Hv He))).
Qed.

Lemma populatePreferences_frame (ik : input_kind) (F : list media_device_info) (s : manager) :
  get (selKey ik) (populatePreferences F s) = get (selKey ik) s /\
  emitted (populatePreferences F s) = emitted s /\
  attributes (populatePreferences F s) = attributes s.
Proof.
  unfold populatePreferences.
  destruct (populateMediaDevicesPreferences _ _ _) as [na nv].
  destruct na, nv; auto.
Qed.

Lemma recomputeSelection_get (key' key : string) pf F prefs knd (s : manager) :
  get key' (recomputeSelection key pf F prefs knd s) =
  if String.eqb key' key then
    (if strict_eq (get key s) JUndef || strict_eq (get key s) (of_opt pf)
     then autoSelect F prefs knd else get key s)
  else get key' s.
Proof.
  unfold recomputeSelection.
  destruct (String.eqb key' key) eqn:E.
  - apply String.eqb_eq in E. subst key.
    destruct (_ || _); [apply get_setAttr_eq | reflexivity].
  - apply String.eqb_neq in E. destruct (_ || _); [apply get_setAttr_ne; exact E | reflexivity].
Qed.

Lemma notifyIfChanged_attributes (key : string) (prev : jsval) (s : manager) :
  attributes (notifyIfChanged key prev s) = attributes s.
Proof. unfold notifyIfChanged. destruct (negb _); reflexivity. Qed.

Lemma recomputeSelection_prefs key pf F prefs knd (s : manager) :
  preferenceAudioInputList (recomputeSelection key pf F prefs knd s) = preferenceAudioInputList s /\
  preferenceVideoInputList (recomputeSelection key pf F prefs knd s) = preferenceVideoInputList s.
Proof. unfold recomputeSelection. destruct (_ || _); auto. Qed.

Lemma notifyIfChanged_get (key' key : string) (prev : jsval) (s : manager) :
  get key' (notifyIfChanged key prev s) = get key' s.
Proof. unfold get. rewrite notifyIfChanged_attributes. reflexivity. Qed.

Lemma settleEnumeration_get (key : string) (k : nat) (s : manager) :
  get key (settleEnumeration k s) = get key s.
Proof. reflexivity. Qed.

(** The selection of kind [ik] after an enumeration pass. *)
Lemma enumerateDevicesResolved_sel (ik : input_kind) (k : nat) (F : list media_device_info) (st : manager) :
  let mid := afterDiff F st in
  let cur := get (selKey ik) mid in
  get (selKey ik) (enumerateDevicesResolved k F st) =
  if strict_eq cur JUndef || strict_eq cur (of_opt (firstAvailable st (prefList ik st)))
  then autoSelect F (prefList ik mid) (devKind ik) else cur.
Proof.
  cbn zeta. unfold enumerateDevicesResolved. rewrite settleEnumeration_get.
  unfold processDevices, afterDiff. cbn zeta.
  pose proof (diffDevices_ok F st) as Hok.
  destruct (diffDevices F st) as [s b]. simpl in Hok. subst b. simpl fst.
  rewrite !notifyIfChanged_get.
  destruct ik; simpl selKey; simpl prefList; simpl devKind;
    rewrite !recomputeSelection_get.
  - change (String.eqb "audioInputId" "videoInputId") with false.
    rewrite String.eqb_refl. reflexivity.
  - change (String.eqb "videoInputId" "audioInputId") with false.
    rewrite String.eqb_refl. rewrite (proj2 (recomputeSelection_prefs _ _ _ _ _ _)). reflexivity.
Qed.

Lemma removalSel_fold_null (ik : input_kind) (h : gmap loc device) (R : list loc) :
  fold_left (fun v l => removalSel ik (deref h l) v) R JNull = JNull.
Proof.
  induction R as [|l R IH]; simpl; [reflexivity|].
  unfold removalSel at 2. rewrite andb_false_r. exact IH.
Qed.

Lemma removalSel_fold_undef (ik : input_kind) (h : gmap loc device) (R : list loc) :
  fold_left (fun v l => removalSel ik (deref h l) v) R JUndef = JUndef.
Proof.
  induction R as [|l R IH]; simpl; [reflexivity|].
  unfold removalSel at 2. rewrite andb_false_r. exact IH.
Qed.

Lemma removalSel_fold_str (ik : input_kind) (h : gmap loc device) (R : list loc) (x : string) :
  fold_left (fun v l => removalSel ik (deref h l) v) R (JStr x) =
  if existsb (fun l => String.eqb (kind (deref h l)) (devKind ik) &&
                       String.eqb (deviceId (deref h l)) x) R
  then JUndef else JStr x.
Proof.
  induction R as [|l R IH]; simpl; [reflexivity|].
  unfold removalSel at 2.
  assert (E : strict_eq (JStr (deviceId (deref h l))) (JStr x) = String.eqb (deviceId (deref h l)) x).
  { unfold strict_eq. destruct (String.eqb_spec (deviceId (deref h l)) x) as [->|Hne].
    - apply bool_decide_eq_true. reflexivity.
    - apply bool_decide_eq_false. congruence. }
  rewrite E. destruct (_ && _); simpl; [apply removalSel_fold_undef | exact IH].
Qed.

Lemma afterDiff_sel (ik : input_kind) (F : list media_device_info) (st : manager) :
  get (selKey ik) (afterDiff F st) =
  fold_left (fun v l => removalSel ik (deref (heap st) l) v) (removedDevices F st) (get (selKey ik) st).
Proof.
  unfold afterDiff. rewrite (proj1 (populatePreferences_frame ik F _)).
  exact (proj1 (diffDevices_frame ik F st)).
Qed.

Lemma autoSelect_found (F : list media_device_info) (prefs : list string) (knd s : string) :
  getFirstAvailableMediaDevice (map mdi_deviceId F) prefs = Some s -> s <> "" ->
  autoSelect F prefs knd = JStr s.
Proof.
  intros H Hs. unfold autoSelect, js_or. rewrite H. simpl.
  apply String.eqb_neq in Hs. rewrite Hs. reflexivity.
Qed.

Lemma autoSelect_fallback (F : list media_device_info) (prefs : list string) (knd : string) :
  getFirstAvailableMediaDevice (map mdi_deviceId F) prefs = None \/
  getFirstAvailableMediaDevice (map mdi_deviceId F) prefs = Some "" ->
  autoSelect F prefs knd = of_opt (option_map mdi_deviceId (List.find (fun d => String.eqb (mdi_kind d) knd) F)).
Proof. intros [H|H]; unfold autoSelect, js_or; rewrite H; reflexivity. Qed.

(** C1 (counterexample): the audio selection is undefined and the
    preference list is [""; "mic2"]; the first preferred identifier present
    in the fresh enumeration is [""], but the pass selects ["mic2"]: the
    empty identifier is falsy and [||] falls through to the first device. *)
Lemma sticky_default_empty_id_cex :
  let st := emptyPrefFirstState in
  get "audioInputId" st = JUndef /\
  preferenceAudioInputList st = [""; "mic2"] /\
  preferenceAudioInputList (enumPass freshMics st) = [""; "mic2"] /\
  getFirstAvailableMediaDevice (map mdi_deviceId freshMics) (preferenceAudioInputList st) = Some "" /\
  get "audioInputId" (enumPass freshMics st) = JStr "mic2".
Proof. vm_compute. repeat split. Qed.

(** C1 (amended): in an enumeration pass with the fresh list [F], the
    selection of kind [ik] first goes through the removals ([cur]: [null]
    and [undefined] are kept, an identifier is reset to [undefined] when a
    removed device of that kind has it, and kept otherwise). It is then
    recomputed exactly when [cur] is [undefined] or equals the previous
    first available preferred identifier, and kept otherwise. The
    recomputed value is the first preferred identifier present in [F] when
    that identifier is not empty, and otherwise the identifier of the
    first device of that kind in [F], or [undefined]. *)
Theorem enumeration_sticky_default (ik : input_kind) (k : nat) (F : list media_device_info) (st : manager) :
  let mid := afterDiff F st in
  let cur := get (selKey ik) mid in
  let final := get (selKey ik) (enumerateDevicesResolved k F st) in
  let prevFirst := firstAvailable st (prefList ik st) in
  let first := getFirstAvailableMediaDevice (map mdi_deviceId F) (prefList ik mid) in
  (get (selKey ik) st = JNull -> cur = JNull) /\
  (get (selKey ik) st = JUndef -> cur = JUndef) /\
  (forall x, get (selKey ik) st = JStr x ->
     cur = if existsb (fun l => String.eqb (kind (deref (heap st) l)) (devKind ik) &&
                                String.eqb (deviceId (deref (heap st) l)) x) (removedDevices F st)
           then JUndef else JStr x) /\
  ((cur = JUndef \/ cur = of_opt prevFirst) -> final = autoSelect F (prefList ik mid) (devKind ik)) /\
  (cur <> JUndef -> cur <> of_opt prevFirst -> final = cur) /\
  (forall s, first = Some s -> s <> "" -> autoSelect F (prefList ik mid) (devKind ik) = JStr s) /\
  (first = None \/ first = Some "" ->
     autoSelect F (prefList ik mid) (devKind ik) =
     of_opt (option_map mdi_deviceId (List.find (fun d => String.eqb (mdi_kind d) (devKind ik)) F))).
Proof.
  cbn zeta. rewrite enumerateDevicesResolved_sel, afterDiff_sel.
  repeat split.
  - intros H. rewrite H. apply removalSel_fold_null.
  - intros H. rewrite H. apply removalSel_fold_undef.
  - intros x H. rewrite H. apply removalSel_fold_str.
  - intros [H|H]; rewrite H; unfold strict_eq.
    + rewrite (bool_decide_eq_true_2 (JUndef = JUndef)) by reflexivity. reflexivity.
    + rewrite (bool_decide_eq_true_2 (of_opt (firstAvailable st (prefList ik st)) =
                                      of_opt (firstAvailable st (prefList ik st)))) by reflexivity.
      rewrite orb_true_r. reflexivity.
  - intros H1 H2. unfold strict_eq.
    rewrite bool_decide_eq_false_2 by exact H1. rewrite bool_decide_eq_false_2 by exact H2.
    reflexivity.
  - intros s H Hs. apply autoSelect_found; assumption.
  - intros H. apply autoSelect_fallback. exact H.
Qed.

(** The amended C1 statement at the counterexample state: the selection
    is [undefined] after the removals, so it is recomputed. *)
Lemma enumeration_sticky_default_witness :
  get "audioInputId" (enumerateDevicesResolved 4 freshMics (updateDevices emptyPrefFirstState)) =
  autoSelect freshMics (prefList AudioInput (afterDiff freshMics (updateDevices emptyPrefFirstState))) "audioinput".
Proof.
  apply (proj1 (proj2 (proj2 (proj2 (enumeration_sticky_default AudioInput 4 freshMics
                                      (updateDevices emptyPrefFirstState)))))).
  left. vm_compute. reflexivity.
Defined.

(** ** Preference lists through a pass *)

Lemma appendNewInputs_grow (knd : string) (F : list media_device_info) (l : list string) (x : string) :
  existsb (String.eqb x) l = true -> existsb (String.eqb x) (appendNewInputs knd F l) = true.
Proof.
  unfold appendNewInputs. revert l. induction F as [|d F IH]; intros l H; simpl; [exact H|].
  apply IH. destruct (_ && _); [|exact H].
  rewrite existsb_app, H. reflexivity.
Qed.

Lemma appendNewInputs_contains (knd : string) (F : list media_device_info) (l : list string) (d : media_device_info) :
  In d F -> mdi_kind d = knd -> existsb (String.eqb (mdi_deviceId d)) (appendNewInputs knd F l) = true.
Proof.
  unfold appendNewInputs. revert l. induction F as [|a F IH]; intros l Hin Hk; [destruct Hin|].
  simpl. destruct Hin as [->|Hin]; [|apply IH; assumption].
  fold (appendNewInputs knd F). apply appendNewInputs_grow.
  rewrite Hk, String.eqb_refl. simpl.
  destruct (existsb (String.eqb (mdi_deviceId d)) l) eqn:E; simpl; [exact E|].
  rewrite existsb_app. simpl. rewrite String.eqb_refl, orb_true_r. reflexivity.
Qed.

Lemma appendNewInputs_noop (knd : string) (F : list media_device_info) (l : list string) :
  (forall d, In d F -> mdi_kind d = knd -> existsb (String.eqb (mdi_deviceId d)) l = true) ->
  appendNewInputs knd F l = l.
Proof.
  unfold appendNewInputs. revert l. induction F as [|a F IH]; intros l H; simpl; [reflexivity|].
  destruct (String.eqb (mdi_kind a) knd) eqn:Ek; simpl.
  - apply String.eqb_eq in Ek. rewrite (H a (or_introl eq_refl) Ek). simpl.
    apply IH. intros d Hd. apply H. right; exact Hd.
  - apply IH. intros d Hd. apply H. right; exact Hd.
Qed.

Lemma appendNewInputs_idem (knd : string) (F : list media_device_info) (l : list string) :
  appendNewInputs knd F (appendNewInputs knd F l) = appendNewInputs knd F l.
Proof. apply appendNewInputs_noop. intros d Hd Hk. apply appendNewInputs_contains; assumption. Qed.

Lemma appendNewInputs_prefix (knd : string) (F : list media_device_info) (l : list string) :
  exists t, appendNewInputs knd F l = (l ++ t)%list.
Proof.
  unfold appendNewInputs. revert l. induction F as [|a F IH]; intros l; simpl.
  - exists []. rewrite app_nil_r. reflexivity.
  - destruct (_ && _).
    + destruct (IH (l ++ [mdi_deviceId a])%list) as [t Ht]. rewrite Ht.
      exists (mdi_deviceId a :: t). rewrite <- app_assoc. reflexivity.
    + apply IH.
Qed.

Lemma appendNewInputs_same_length (knd : string) (F : list media_device_info) (l : list string) :
  Nat.eqb (length (appendNewInputs knd F l)) (length l) = true -> appendNewInputs knd F l = l.
Proof.
  intros H. apply Nat.eqb_eq in H. destruct (appendNewInputs_prefix knd F l) as [t Ht].
  rewrite Ht in *. rewrite length_app in H. destruct t; [rewrite app_nil_r; reflexivity|].
  simpl in H. lia.
Qed.

Lemma populatePreferences_prefs (ik : input_kind) (F : list media_device_info) (s : manager) :
  prefList ik (populatePreferences F s) = appendNewInputs (devKind ik) F (prefList ik s).
Proof.
  unfold populatePreferences, populateMediaDevicesPreferences.
  destruct (Nat.eqb (length (appendNewInputs "audioinput" F (preferenceAudioInputList s)))
              (length (preferenceAudioInputList s))) eqn:Ea;
  destruct (Nat.eqb (length (appendNewInputs "videoinput" F (preferenceVideoInputList s)))
              (length (preferenceVideoInputList s))) eqn:Ev;
  destruct ik; simpl;
  rewrite ?(appendNewInputs_same_length _ _ _ Ea), ?(appendNewInputs_same_length _ _ _ Ev); reflexivity.
Qed.

Lemma populatePreferences_noop (F : list media_device_info) (s : manager) :
  appendNewInputs "audioinput" F (preferenceAudioInputList s) = preferenceAudioInputList s ->
  appendNewInputs "videoinput" F (preferenceVideoInputList s) = preferenceVideoInputList s ->
  populatePreferences F s = s.
Proof.
  intros Ha Hv. unfold populatePreferences, populateMediaDevicesPreferences.
  rewrite Ha, Hv, !Nat.eqb_refl. reflexivity.
Qed.

Lemma populatePreferences_devices (F : list media_device_info) (s : manager) :
  devices (populatePreferences F s) = devices s /\ heap (populatePreferences F s) = heap s.
Proof.
  unfold populatePreferences. destruct (populateMediaDevicesPreferences _ _ _) as [na nv].
  destruct na, nv; auto.
Qed.

(** ** The steps after the diff *)

Lemma devices_setAttr_ne (key : string) (v : jsval) (s : manager) :
  key <> "devices" -> devices (setAttr key v s) = devices s.
Proof. intros H. unfold devices, setAttr. simpl. rewrite lookup_insert_ne by congruence. reflexivity. Qed.

Lemma recomputeSelection_frame key pf F prefs knd (s : manager) :
  key <> "devices" ->
  let s' := recomputeSelection key pf F prefs knd s in
  devices s' = devices s /\ heap s' = heap s /\
  preferenceAudioInputList s' = preferenceAudioInputList s /\
  preferenceVideoInputList s' = preferenceVideoInputList s /\ emitted s' = emitted s.
Proof.
  intros Hk. unfold recomputeSelection. destruct (_ || _); [|auto].
  rewrite devices_setAttr_ne by exact Hk. auto.
Qed.

Lemma notifyIfChanged_frame key prev (s : manager) :
  let s' := notifyIfChanged key prev s in
  devices s' = devices s /\ heap s' = heap s /\
  preferenceAudioInputList s' = preferenceAudioInputList s /\
  preferenceVideoInputList s' = preferenceVideoInputList s /\
  emitted s' = (emitted s ++ if strict_eq prev (get key s) then [] else [(String.append "change:" key, get key s)])%list.
Proof.
  unfold notifyIfChanged. destruct (strict_eq prev (get key s)); simpl;
    [rewrite app_nil_r; auto | auto].
Qed.

Lemma notifyIfChanged_devices key prev (s : manager) : devices (notifyIfChanged key prev s) = devices s.
Proof. exact (proj1 (notifyIfChanged_frame key prev s)). Qed.

Lemma settleEnumeration_frame (k : nat) (s : manager) :
  let s' := settleEnumeration k s in
  devices s' = devices s /\ heap s' = heap s /\
  preferenceAudioInputList s' = preferenceAudioInputList s /\
  preferenceVideoInputList s' = preferenceVideoInputList s /\ emitted s' = emitted s.
Proof. repeat split. Qed.

(** An enumeration pass after its diff: the device list, the device
    objects and the preference lists are those after [populatePreferences],
    and a change event is emitted for each selection that changed. *)
Lemma enumerateDevicesResolved_frame (k : nat) (F : list media_device_info) (st : manager) :
  let m := afterDiff F st in
  let s' := enumerateDevicesResolved k F st in
  devices s' = devices m /\ heap s' = heap m /\
  preferenceAudioInputList s' = preferenceAudioInputList m /\
  preferenceVideoInputList s' = preferenceVideoInputList m /\
  (get "audioInputId" s' = get "audioInputId" st -> get "videoInputId" s' = get "videoInputId" st ->
   emitted s' = emitted m).
Proof.
  cbn zeta. unfold enumerateDevicesResolved, processDevices, afterDiff. cbn zeta.
  pose proof (diffDevices_ok F st) as Hok.
  destruct (diffDevices F st) as [s b]. simpl in Hok. subst b. simpl fst.
  set (p := populatePreferences F s).
  set (ra := recomputeSelection "audioInputId" _ F (preferenceAudioInputList p) "audioinput" p).
  set (rv := recomputeSelection "videoInputId" _ F (preferenceVideoInputList ra) "videoinput" ra).
  destruct (recomputeSelection_frame "audioInputId" (firstAvailable st (preferenceAudioInputList st)) F
              (preferenceAudioInputList p) "audioinput" p ltac:(discriminate)) as (A1 & A2 & A3 & A4 & A5).
  destruct (recomputeSelection_frame "videoInputId" (firstAvailable st (preferenceVideoInputList st)) F
              (preferenceVideoInputList ra) "videoinput" ra ltac:(discriminate)) as (V1 & V2 & V3 & V4 & V5).
  fold ra in A1, A2, A3, A4, A5. fold rv in V1, V2, V3, V4, V5.
  destruct (notifyIfChanged_frame "audioInputId" (get "audioInputId" st) rv) as (N1 & N2 & N3 & N4 & N5).
  destruct (notifyIfChanged_frame "videoInputId" (get "videoInputId" st)
              (notifyIfChanged "audioInputId" (get "audioInputId" st) rv)) as (M1 & M2 & M3 & M4 & M5).
  destruct (settleEnumeration_frame k (notifyIfChanged "videoInputId" (get "videoInputId" st)
              (notifyIfChanged "audioInputId" (get "audioInputId" st) rv))) as (S1 & S2 & S3 & S4 & S5).
  rewrite !settleEnumeration_get, S1, S2, S3, S4, S5, M1, M2, M3, M4, N1, N2, N3, N4, V1, V2, V3, V4, A1, A2, A3, A4.
  repeat split.
  rewrite !notifyIfChanged_get. intros Ha Hv.
  rewrite M5, N5, notifyIfChanged_get, V5, A5.
  unfold strict_eq. rewrite Ha, Hv, !bool_decide_eq_true_2 by reflexivity.
  rewrite !app_nil_r. reflexivity.
Qed.

(** ** The state an enumeration pass leaves *)

Lemma settledFor_transfer (F G : list media_device_info) (s s' : manager) :
  devices s' = devices s -> heap s' = heap s -> settledFor F G s -> settledFor F G s'.
Proof. intros Hd Hh. unfold settledFor, heapWf, fixedAt. rewrite Hd, Hh. auto. Qed.

Lemma settledFor_incl (F G G' : list media_device_info) (s : manager) :
  (forall f, In f G' -> In f G) -> settledFor F G s -> settledFor F G' s.
Proof. intros Hi (H1 & H2 & H3). split; [exact H1|]. split; [exact H2|]. intros f Hf. apply H3, Hi, Hf. Qed.

Lemma sameDevice_same_ident (d : device) (f g : media_device_info) :
  sameDevice d f = true -> sameDevice d g = true -> mdiIdent f = mdiIdent g.
Proof.
  intros Hf Hg. apply sameDevice_kind in Hf as [F1 F2]. apply sameDevice_kind in Hg as [G1 G2].
  unfold mdiIdent. congruence.
Qed.

Lemma sameDevice_of_ident (d : device) (f : media_device_info) :
  deviceId d = mdi_deviceId f -> kind d = mdi_kind f -> sameDevice d f = true.
Proof. intros H1 H2. unfold sameDevice. rewrite H1, H2, !String.eqb_refl. reflexivity. Qed.

Lemma find_ext {A : Type} (p q : A -> bool) (L : list A) :
  (forall x, In x L -> p x = q x) -> List.find p L = List.find q L.
Proof.
  induction L as [|a L IH]; intros H; simpl; [reflexivity|].
  rewrite (H a (or_introl eq_refl)). destruct (q a); [reflexivity|].
  apply IH. intros x Hx. apply H. right; exact Hx.
Qed.

Lemma find_app_some {A : Type} (p : A -> bool) (L M : list A) (x : A) :
  List.find p L = Some x -> List.find p (L ++ M) = Some x.
Proof.
  induction L as [|a L IH]; simpl; [discriminate|].
  destruct (p a); [auto | exact IH].
Qed.

Lemma find_app_none {A : Type} (p : A -> bool) (L M : list A) :
  List.find p L = None -> List.find p (L ++ M) = List.find p M.
Proof.
  induction L as [|a L IH]; simpl; [reflexivity|].
  destruct (p a); [discriminate | exact IH].
Qed.

Lemma find_all_false {A : Type} (p : A -> bool) (L : list A) :
  (forall x, In x L -> p x = false) -> List.find p L = None.
Proof.
  induction L as [|a L IH]; intros H; simpl; [reflexivity|].
  rewrite (H a (or_introl eq_refl)). apply IH. intros x Hx. apply H. right; exact Hx.
Qed.

Lemma NoDup_map_filter {A B : Type} (g : A -> B) (p : A -> bool) (L : list A) :
  List.NoDup (map g L) -> List.NoDup (map g (List.filter p L)).
Proof.
  induction L as [|a L IH]; simpl; intros H; [apply List.NoDup_nil|].
  apply NoDup_cons_iff in H as [Hn Hd].
  destruct (p a); simpl; [|apply IH; exact Hd].
  apply List.NoDup_cons; [|apply IH; exact Hd].
  intros Hin. apply Hn. apply in_map_iff in Hin as (x & Hx & Hin).
  apply filter_In in Hin as [Hin _]. rewrite <- Hx. apply in_map. exact Hin.
Qed.

Lemma existsb_sameDevice_ident (a b : device) (F : list media_device_info) :
  deviceId a = deviceId b -> kind a = kind b ->
  existsb (sameDevice a) F = existsb (sameDevice b) F.
Proof.
  intros H1 H2. induction F as [|f F IH]; simpl; [reflexivity|].
  rewrite (sameDevice_ident a b f H1 H2), IH. reflexivity.
Qed.

Lemma sameIdentity_match (a b : device) (F : list media_device_info) :
  sameIdentity a b = true -> existsb (sameDevice a) F = existsb (sameDevice b) F.
Proof.
  unfold sameIdentity. intros H. apply andb_true_iff in H as [H1 H2].
  apply String.eqb_eq in H1, H2. apply existsb_sameDevice_ident; assumption.
Qed.

Lemma sameIdentity_refl (a : device) : sameIdentity a a = true.
Proof. unfold sameIdentity. rewrite !String.eqb_refl. reflexivity. Qed.

(** *** The removals keep exactly the devices matching [F] *)

Section Removals.
Variable h : gmap loc device.
Variable F : list media_device_info.

Let matched (l : loc) : bool := existsb (sameDevice (deref h l)) F.

Let removeAll (R L : list loc) : list loc :=
  fold_left (fun L r => removeFirst (fun l' => sameIdentity (deref h l') (deref h r)) L) R L.

Lemma removeAll_skip (R M : list loc) (a : loc) :
  matched a = true -> (forall r, In r R -> matched r = false) ->
  removeAll R (a :: M) = a :: removeAll R M.
Proof.
  unfold removeAll. revert M. induction R as [|r R IH]; intros M Ha Hr; simpl; [reflexivity|].
  destruct (sameIdentity (deref h a) (deref h r)) eqn:E.
  - apply (sameIdentity_match _ _ F) in E. unfold matched in Ha, Hr.
    rewrite E, (Hr r (or_introl eq_refl)) in Ha. discriminate.
  - apply IH; [exact Ha|]. intros r' Hr'. apply Hr. right; exact Hr'.
Qed.

Lemma removeAll_filter (L : list loc) :
  removeAll (List.filter (fun l => negb (matched l)) L) L = List.filter matched L.
Proof.
  induction L as [|a L IH]; simpl; [reflexivity|].
  destruct (matched a) eqn:Ea; simpl.
  - rewrite removeAll_skip; [rewrite IH; reflexivity | exact Ea|].
    intros r Hr. apply filter_In in Hr as [_ Hr]. destruct (matched r); [discriminate | reflexivity].
  - unfold removeAll at 1. simpl. rewrite sameIdentity_refl. exact IH.
Qed.

End Removals.

Lemma removals_devices (R : list loc) (s : manager) :
  devices (fold_left (fun s l => removeDevice l s) R s) =
  fold_left (fun L r => removeFirst (fun l' => sameIdentity (deref (heap s) l') (deref (heap s) r)) L)
    R (devices s).
Proof.
  revert s. induction R as [|r R IH]; intros s; simpl; [reflexivity|].
  rewrite IH, removeDevice_heap, removeDevice_devices. reflexivity.
Qed.

(** *** The updates fix the devices they update *)

Lemma updatedRecord_idem (f : media_device_info) (o : device) :
  updatedRecord f (updatedRecord f o) = updatedRecord f o.
Proof. unfold updatedRecord. simpl. destruct (negb _); reflexivity. Qed.

Lemma updateAll_settled (F : list media_device_info) (fs G : list media_device_info) (s : manager) :
  List.NoDup (map mdiIdent fs) ->
  (forall f g, In f fs -> In g G -> mdiIdent f <> mdiIdent g) ->
  (forall f, In f fs -> exists l, In l (devices s) /\ sameDevice (deref (heap s) l) f = true) ->
  settledFor F G s -> settledFor F (G ++ fs) (fst (updateAll fs s)).
Proof.
  revert G s. induction fs as [|f fs IH]; intros G s Hnd Hdiff Hex Hset; simpl.
  - rewrite app_nil_r. exact Hset.
  - apply NoDup_cons_iff in Hnd as [Hnin Hnd].
    destruct (updateDevice f s) as [s'|] eqn:E.
    2:{ destruct (Hex f (or_introl eq_refl)) as (l & Hin & Hl).
        rewrite (updateDevice_none f s E l Hin) in Hl. discriminate. }
    apply updateDevice_spec in E as (l & Hin & Hs & Hfind & ->).
    set (o := deref (heap s) l).
    set (h' := <[l := updatedRecord f o]> (heap s)).
    assert (Hid : forall l', deviceId (deref h' l') = deviceId (deref (heap s) l') /\
                             kind (deref h' l') = kind (deref (heap s) l')).
    { intros l'. unfold h'. rewrite deref_insert.
      destruct (Nat.eq_dec l l') as [<-|]; [apply updatedRecord_ident; exact Hs | auto]. }
    assert (Hsd : forall l' g, sameDevice (deref h' l') g = sameDevice (deref (heap s) l') g).
    { intros l' g. apply sameDevice_ident; apply Hid. }
    replace (G ++ f :: fs)%list with ((G ++ [f]) ++ fs)%list by (rewrite <- app_assoc; reflexivity).
    apply IH; [exact Hnd | | |].
    + intros g g' Hg Hg'. apply in_app_iff in Hg' as [Hg'|[<-|[]]].
      * apply Hdiff; [right; exact Hg | exact Hg'].
      * intros He. apply Hnin. rewrite <- He. apply in_map. exact Hg.
    + intros g Hg. destruct (Hex g (or_intror Hg)) as (l' & Hin' & Hl').
      exists l'. split; [exact Hin'|]. simpl. fold h'. rewrite Hsd. exact Hl'.
    + destruct Hset as (Hwf & Hm & Hfx). unfold settledFor, heapWf, fixedAt. simpl. fold h'.
      split; [|split].
      * intros l' Hl'. unfold h'. apply lookup_insert_is_Some'. right. apply Hwf. exact Hl'.
      * intros l' Hl'. rewrite <- (Hm l' Hl'). apply existsb_sameDevice_ident; apply Hid.
      * intros g Hg. apply in_app_iff in Hg as [Hg|[<-|[]]].
        -- destruct (Hfx g Hg) as (lg & Hfg & Hlg & Hxg).
           assert (Hne : l <> lg).
           { intros <-. apply find_some in Hfg as [_ Hfg].
             apply (Hdiff f g (or_introl eq_refl) Hg). eapply sameDevice_same_ident; eassumption. }
           exists lg. rewrite (find_ext _ (fun l0 => sameDevice (deref (heap s) l0) g)) by (intros; apply Hsd).
           assert (Hd : deref h' lg = deref (heap s) lg)
             by (unfold h'; rewrite deref_insert; destruct (Nat.eq_dec l lg); [contradiction | reflexivity]).
           rewrite Hd. split; [exact Hfg|]. split; [|exact Hxg].
           unfold h'. rewrite lookup_insert_ne by exact Hne. exact Hlg.
        -- exists l. rewrite (find_ext _ (fun l0 => sameDevice (deref (heap s) l0) f)) by (intros; apply Hsd).
           assert (Hd : deref h' l = updatedRecord f o)
             by (unfold h'; rewrite deref_insert; destruct (Nat.eq_dec l l); [reflexivity | contradiction]).
           rewrite Hd. split; [exact Hfind|]. split; [|apply updatedRecord_idem].
           unfold h'. rewrite lookup_insert_eq. reflexivity.
Qed.

(** *** The adds fix the devices they add *)

Lemma addedDeviceRecord_ident (f : media_device_info) (s : manager) :
  deviceId (addedDeviceRecord f s) = mdi_deviceId f /\ kind (addedDeviceRecord f s) = mdi_kind f.
Proof. unfold addedDeviceRecord. destruct (knownDevices s !! knownDeviceKey f); auto. Qed.

Lemma addedDeviceRecord_fixed (f : media_device_info) (s : manager) :
  updatedRecord f (addedDeviceRecord f s) = addedDeviceRecord f s.
Proof.
  unfold addedDeviceRecord, updatedRecord. destruct (knownDevices s !! knownDeviceKey f); simpl.
  - destruct (negb _); reflexivity.
  - destruct (String.eqb (mdi_label f) "") eqn:E; simpl; [apply String.eqb_eq in E; rewrite E|]; reflexivity.
Qed.

Lemma addDevice_shape (f : media_device_info) (s : manager) :
  devices (addDevice f s) = (devices s ++ [fresh (dom (heap s))])%list /\
  heap (addDevice f s) = <[fresh (dom (heap s)) := addedDeviceRecord f s]> (heap s) /\
  heap s !! fresh (dom (heap s)) = None.
Proof.
  split; [apply devices_setDevices|]. split; [reflexivity|].
  apply not_elem_of_dom. apply is_fresh.
Qed.

Lemma adds_settled (F A G : list media_device_info) (s : manager) :
  List.NoDup (map mdiIdent A) -> (forall f, In f A -> In f F) ->
  (forall f l, In f A -> In l (devices s) -> sameDevice (deref (heap s) l) f = false) ->
  settledFor F G s -> settledFor F (G ++ A) (fold_left (fun s f => addDevice f s) A s).
Proof.
  revert G s. induction A as [|f A IH]; intros G s Hnd HF Hno Hset; simpl.
  - rewrite app_nil_r. exact Hset.
  - apply NoDup_cons_iff in Hnd as [Hnin Hnd].
    destruct (addDevice_shape f s) as (Hdv & Hhp & Hfr).
    set (l0 := fresh (dom (heap s))) in *.
    set (r := addedDeviceRecord f s) in *.
    destruct Hset as (Hwf & Hm & Hfx).
    assert (Hold : forall l, In l (devices s) -> deref (heap (addDevice f s)) l = deref (heap s) l /\
                     heap (addDevice f s) !! l = heap s !! l).
    { intros l Hl. assert (Hne : l0 <> l).
      { intros <-. destruct (Hwf l0 Hl) as [x Hx]. congruence. }
      rewrite Hhp, deref_insert. destruct (Nat.eq_dec l0 l); [contradiction|].
      rewrite lookup_insert_ne by exact Hne. auto. }
    assert (Hnew : deref (heap (addDevice f s)) l0 = r /\ heap (addDevice f s) !! l0 = Some r).
    { rewrite Hhp, deref_insert. destruct (Nat.eq_dec l0 l0); [|contradiction].
      rewrite lookup_insert_eq. auto. }
    assert (Hrf : sameDevice r f = true)
      by (apply sameDevice_of_ident; apply addedDeviceRecord_ident).
    replace (G ++ f :: A)%list with ((G ++ [f]) ++ A)%list by (rewrite <- app_assoc; reflexivity).
    apply IH; [exact Hnd | intros g Hg; apply HF; right; exact Hg | |].
    + intros g l Hg Hl. rewrite Hdv in Hl. apply in_app_iff in Hl as [Hl|[<-|[]]].
      * rewrite (proj1 (Hold l Hl)). apply Hno; [right; exact Hg | exact Hl].
      * rewrite (proj1 Hnew). destruct (sameDevice r g) eqn:E; [|reflexivity].
        exfalso. apply Hnin. rewrite (sameDevice_same_ident r f g Hrf E). apply in_map. exact Hg.
    + split; [|split].
      * intros l Hl. rewrite Hdv in Hl. apply in_app_iff in Hl as [Hl|[<-|[]]].
        -- rewrite (proj2 (Hold l Hl)). apply Hwf. exact Hl.
        -- rewrite (proj2 Hnew). eexists; reflexivity.
      * intros l Hl. rewrite Hdv in Hl. apply in_app_iff in Hl as [Hl|[<-|[]]].
        -- rewrite (proj1 (Hold l Hl)). apply Hm. exact Hl.
        -- rewrite (proj1 Hnew). apply existsb_exists. exists f. split; [apply HF; left; reflexivity | exact Hrf].
      * intros g Hg. apply in_app_iff in Hg as [Hg|[<-|[]]].
        -- destruct (Hfx g Hg) as (lg & Hfg & Hlg & Hxg). exists lg.
           pose proof Hfg as Hin. apply find_some in Hin as [Hin _].
           assert (Hf' : List.find (fun l => sameDevice (deref (heap (addDevice f s)) l) g) (devices s) = Some lg)
             by (rewrite <- Hfg; apply find_ext; intros x Hx; rewrite (proj1 (Hold x Hx)); reflexivity).
           rewrite Hdv, (find_app_some _ _ _ _ Hf'), (proj1 (Hold lg Hin)), (proj2 (Hold lg Hin)).
           auto.
        -- exists l0.
           assert (Hf' : List.find (fun l => sameDevice (deref (heap (addDevice f s)) l) f) (devices s) = None)
             by (apply find_all_false; intros x Hx; rewrite (proj1 (Hold x Hx));
                 apply Hno; [left; reflexivity | exact Hx]).
           rewrite Hdv, (find_app_none _ _ _ Hf').
           cbn [List.find]. rewrite (proj1 Hnew), Hrf, (proj2 Hnew).
           split; [reflexivity|]. split; [reflexivity|]. apply addedDeviceRecord_fixed.
Qed.

(** *** A pass leaves a settled state *)

Lemma diffDevices_settled (F : list media_device_info) (st : manager) :
  heapWf st -> List.NoDup (map mdiIdent F) -> settledFor F F (fst (diffDevices F st)).
Proof.
  intros Hwf Hnd. unfold diffDevices. cbn zeta.
  set (h := heap st).
  set (U := List.filter (fun f => existsb (fun l => sameDevice (deref h l) f) (devices st)) F).
  set (A := List.filter (fun f => negb (existsb (fun l => sameDevice (deref h l) f) (devices st))) F).
  set (s1 := fold_left (fun s l => removeDevice l s) _ st).
  assert (Hh1 : heap s1 = h) by exact (proj1 (removals_spec AudioInput _ st)).
  assert (Hd1 : devices s1 = List.filter (fun l => existsb (sameDevice (deref h l)) F) (devices st)).
  { unfold s1. rewrite removals_devices. exact (removeAll_filter h F (devices st)). }
  assert (S1 : settledFor F [] s1).
  { split; [|split]; [| |intros _ []].
    - intros l Hl. rewrite Hd1 in Hl. apply filter_In in Hl as [Hl _]. rewrite Hh1. apply Hwf. exact Hl.
    - intros l Hl. rewrite Hd1 in Hl. apply filter_In in Hl as [_ Hl]. rewrite Hh1. exact Hl. }
  assert (HU : forall f, In f U -> exists l, In l (devices s1) /\ sameDevice (deref (heap s1) l) f = true).
  { intros f Hf. apply filter_In in Hf as [HfF Hf]. apply existsb_exists in Hf as (l & Hl & Hs).
    exists l. rewrite Hd1, Hh1. split; [|exact Hs]. apply filter_In. split; [exact Hl|].
    apply existsb_exists. exists f. split; [exact HfF | exact Hs]. }
  pose proof (updateAll_settled F U [] s1 (NoDup_map_filter _ _ _ Hnd)
                (fun _ _ _ H => match H with end) HU S1) as S2.
  pose proof (updateAll_ok U s1 HU) as Hok.
  destruct (updateAll_frame U s1) as (h' & Hh' & Hid).
  destruct (updateAll U s1) as [s2 b] eqn:E. simpl in Hok, S2, Hh'. subst b s2.
  cbn [fst].
  apply (settledFor_incl F (U ++ A)).
  - intros f Hf. apply in_app_iff.
    destruct (existsb (fun l => sameDevice (deref h l) f) (devices st)) eqn:Ef.
    + left. apply filter_In. auto.
    + right. apply filter_In. rewrite Ef. auto.
  - apply adds_settled; [apply NoDup_map_filter; exact Hnd | | | exact S2].
    + intros f Hf. apply filter_In in Hf as [Hf _]. exact Hf.
    + intros f l Hf Hl. change (devices (set_heap h' s1)) with (devices s1) in Hl.
      change (heap (set_heap h' s1)) with h'.
      rewrite (sameDevice_ident _ (deref (heap s1) l) f (proj1 (Hid l)) (proj2 (Hid l))), Hh1.
      apply filter_In in Hf as [_ Hf]. rewrite Hd1 in Hl. apply filter_In in Hl as [Hl _].
      destruct (sameDevice (deref h l) f) eqn:Es; [|reflexivity].
      apply negb_true_iff in Hf.
      assert (existsb (fun l => sameDevice (deref h l) f) (devices st) = true)
        by (apply existsb_exists; exists l; auto).
      congruence.
Qed.

(** *** A pass over a settled state changes nothing *)

Lemma set_heap_self (s : manager) : set_heap (heap s) s = s.
Proof. destruct s; reflexivity. Qed.

Lemma updateDevice_fixed (f : media_device_info) (s : manager) :
  fixedAt f s -> updateDevice f s = Some s.
Proof.
  intros (l & Hf & Hl & Hx). unfold updateDevice. rewrite Hf. cbn zeta.
  change (Some (set_heap (<[l := updatedRecord f (deref (heap s) l)]> (heap s)) s) = Some s).
  rewrite Hx, insert_id by exact Hl. rewrite set_heap_self. reflexivity.
Qed.

Lemma updateAll_fixed_noop (fs : list media_device_info) (s : manager) :
  (forall f, In f fs -> fixedAt f s) -> updateAll fs s = (s, true).
Proof.
  induction fs as [|f fs IH]; intros H; simpl; [reflexivity|].
  rewrite updateDevice_fixed by (apply H; left; reflexivity).
  apply IH. intros g Hg. apply H. right; exact Hg.
Qed.

Lemma filter_all_false {A : Type} (p : A -> bool) (L : list A) :
  (forall x, In x L -> p x = false) -> List.filter p L = [].
Proof.
  induction L as [|a L IH]; intros H; simpl; [reflexivity|].
  rewrite (H a (or_introl eq_refl)). apply IH. intros x Hx. apply H. right; exact Hx.
Qed.

Lemma fixedAt_exists (f : media_device_info) (s : manager) :
  fixedAt f s -> existsb (fun l => sameDevice (deref (heap s) l) f) (devices s) = true.
Proof.
  intros (l & Hf & _). apply find_some in Hf as [Hin Hs].
  apply existsb_exists. exists l. auto.
Qed.

Lemma diffDevices_settled_noop (F : list media_device_info) (s : manager) :
  settledFor F F s -> fst (diffDevices F s) = s.
Proof.
  intros (Hwf & Hm & Hfx). unfold diffDevices. cbn zeta.
  rewrite (filter_all_false (fun l => negb (existsb (sameDevice (deref (heap s) l)) F)))
    by (intros l Hl; rewrite Hm by exact Hl; reflexivity).
  cbn [fold_left].
  rewrite updateAll_fixed_noop by (intros f Hf; apply filter_In in Hf as [Hf _]; apply Hfx; exact Hf).
  rewrite (filter_all_false (fun f => negb (existsb (fun l => sameDevice (deref (heap s) l) f) (devices s))))
    by (intros f Hf; rewrite fixedAt_exists by (apply Hfx; exact Hf); reflexivity).
  reflexivity.
Qed.

Lemma settled_ids (F : list media_device_info) (s : manager) (x : string) :
  settledFor F F s ->
  existsb (String.eqb x) (map (fun l => deviceId (deref (heap s) l)) (devices s)) =
  existsb (String.eqb x) (map mdi_deviceId F).
Proof.
  intros (_ & Hm & Hfx). apply Bool.eq_iff_eq_true. rewrite !existsb_exists. split.
  - intros (y & Hy & Hxy). apply in_map_iff in Hy as (l & <- & Hl).
    apply Hm, existsb_exists in Hl as (f & Hf & Hs). apply sameDevice_kind in Hs as [Hs _].
    exists (mdi_deviceId f). split; [apply in_map; exact Hf | rewrite <- Hs; exact Hxy].
  - intros (y & Hy & Hxy). apply in_map_iff in Hy as (f & <- & Hf).
    destruct (Hfx f Hf) as (l & Hfl & _). apply find_some in Hfl as [Hl Hs].
    apply sameDevice_kind in Hs as [Hs _].
    exists (deviceId (deref (heap s) l)). split; [apply in_map_iff; exists l; auto | rewrite Hs; exact Hxy].
Qed.

Lemma getFirstAvailableMediaDevice_ext (ids ids' prefs : list string) :
  (forall x, existsb (String.eqb x) ids = existsb (String.eqb x) ids') ->
  getFirstAvailableMediaDevice ids prefs = getFirstAvailableMediaDevice ids' prefs.
Proof. intros H. unfold getFirstAvailableMediaDevice. apply find_ext. intros x _. apply H. Qed.

Lemma enumerateDevicesResolved_prefs (ik : input_kind) (k : nat) (F : list media_device_info) (st : manager) :
  prefList ik (enumerateDevicesResolved k F st) = prefList ik (afterDiff F st).
Proof.
  destruct (enumerateDevicesResolved_frame k F st) as (_ & _ & Ha & Hv & _).
  destruct ik; simpl; assumption.
Qed.

(** C9 (counterexample): (a) the audio selection is the empty identifier,
    which the first pass keeps; the first preferred identifier present in
    the fresh list is also [""], so the second pass takes it for an
    automatic pick, replaces it by ["mic2"] and emits
    [change:audioInputId]. (b) two fresh entries with one identity: the
    second pass relabels the device the first pass added for the first
    entry. *)
Lemma enumeration_not_idempotent_cex :
  let s0 := set "audioInputId" (JStr "") emptyPrefFirstState in
  let s1 := enumerateDevicesResolved 0 freshMics s0 in
  let s2 := enumerateDevicesResolved 1 freshMics s1 in
  let G := [mkMediaDeviceInfo "a" "" "audioinput" "x"; mkMediaDeviceInfo "a" "" "audioinput" "y"] in
  let t1 := enumerateDevicesResolved 0 G (emptyStorageManager true) in
  let t2 := enumerateDevicesResolved 1 G t1 in
  get "audioInputId" s1 = JStr "" /\ get "audioInputId" s2 = JStr "mic2" /\
  emitted s2 = (emitted s1 ++ [("change:audioInputId", JStr "mic2")])%list /\
  map (fun l => label (deref (heap t1) l)) (devices t1) = ["x"; "y"] /\
  map (fun l => label (deref (heap t2) l)) (devices t2) = ["y"; "y"].
Proof. vm_compute. repeat split. Qed.

(** C9 (amended): when the device objects of the list are allocated, the
    fresh list has no two entries with the same [(deviceId, kind)], and
    for neither kind the first preferred identifier present in it is the
    empty string, a second pass with the same fresh list emits no change
    event and leaves the device list, the device objects, both preference
    lists and both selections as the first pass left them. *)
Theorem enumeration_idempotent (k1 k2 : nat) (F : list media_device_info) (st : manager) :
  heapWf st ->
  List.NoDup (map mdiIdent F) ->
  (forall ik, getFirstAvailableMediaDevice (map mdi_deviceId F)
                (prefList ik (enumerateDevicesResolved k1 F st)) <> Some "") ->
  let st1 := enumerateDevicesResolved k1 F st in
  let st2 := enumerateDevicesResolved k2 F st1 in
  emitted st2 = emitted st1 /\ devices st2 = devices st1 /\ heap st2 = heap st1 /\
  preferenceAudioInputList st2 = preferenceAudioInputList st1 /\
  preferenceVideoInputList st2 = preferenceVideoInputList st1 /\
  get "audioInputId" st2 = get "audioInputId" st1 /\
  get "videoInputId" st2 = get "videoInputId" st1.
Proof.
  intros Hwf Hnd Hfirst st1 st2.
  destruct (enumerateDevicesResolved_frame k1 F st) as (D1 & H1 & _ & _ & _).
  fold st1 in D1, H1.
  assert (S1 : settledFor F F st1).
  { apply (settledFor_transfer F F (fst (diffDevices F st))); [| |apply diffDevices_settled; assumption].
    - rewrite D1. apply populatePreferences_devices.
    - rewrite H1. apply populatePreferences_devices. }
  assert (M : afterDiff F st1 = st1).
  { unfold afterDiff. rewrite diffDevices_settled_noop by exact S1.
    apply populatePreferences_noop.
    - change (appendNewInputs (devKind AudioInput) F (prefList AudioInput st1) = prefList AudioInput st1).
      unfold st1. rewrite enumerateDevicesResolved_prefs. unfold afterDiff.
      rewrite populatePreferences_prefs. apply appendNewInputs_idem.
    - change (appendNewInputs (devKind VideoInput) F (prefList VideoInput st1) = prefList VideoInput st1).
      unfold st1. rewrite enumerateDevicesResolved_prefs. unfold afterDiff.
      rewrite populatePreferences_prefs. apply appendNewInputs_idem. }
  assert (Sel : forall ik, get (selKey ik) st2 = get (selKey ik) st1).
  { intros ik. unfold st2. rewrite enumerateDevicesResolved_sel. cbn zeta. rewrite M.
    unfold firstAvailable.
    rewrite (getFirstAvailableMediaDevice_ext _ (map mdi_deviceId F))
      by (intros x; apply settled_ids; exact S1).
    specialize (Hfirst ik). fold st1 in Hfirst.
    set (P := prefList ik st1) in *.
    set (g := getFirstAvailableMediaDevice (map mdi_deviceId F) P) in *.
    assert (Hs1 : get (selKey ik) st1 =
       let cur := get (selKey ik) (afterDiff F st) in
       if strict_eq cur JUndef || strict_eq cur (of_opt (firstAvailable st (prefList ik st)))
       then autoSelect F P (devKind ik) else cur).
    { unfold st1 at 1. rewrite enumerateDevicesResolved_sel. unfold P, st1.
      rewrite enumerateDevicesResolved_prefs. reflexivity. }
    cbn zeta in Hs1. rewrite Hs1.
    destruct (strict_eq (get (selKey ik) (afterDiff F st)) JUndef ||
              strict_eq (get (selKey ik) (afterDiff F st)) (of_opt (firstAvailable st (prefList ik st))))
      eqn:C1.
    - match goal with |- (if ?c then _ else _) = _ => destruct c end; reflexivity.
    - apply orb_false_iff in C1 as [C1 _]. rewrite C1. simpl.
      destruct (strict_eq (get (selKey ik) (afterDiff F st)) (of_opt g)) eqn:C2; [|reflexivity].
      unfold strict_eq in C1, C2. apply bool_decide_eq_true_1 in C2.
      apply bool_decide_eq_false_1 in C1. rewrite C2.
      destruct g as [x|] eqn:Eg; simpl in C2 |- *; [|rewrite C2 in C1; contradiction].
      apply autoSelect_found; [exact Eg|]. intros ->. apply Hfirst. reflexivity. }
  destruct (enumerateDevicesResolved_frame k2 F st1) as (D2 & H2 & A2 & V2 & E2).
  fold st2 in D2, H2, A2, V2, E2. rewrite M in D2, H2, A2, V2, E2.
  split; [apply E2; [apply (Sel AudioInput) | apply (Sel VideoInput)]|].
  split; [exact D2|]. split; [exact H2|]. split; [exact A2|]. split; [exact V2|].
  split; [apply (Sel AudioInput) | apply (Sel VideoInput)].
Qed.

(** The amended C9 statement on a pass that removes the device ["old"],
    updates ["m1"] and adds ["m2"] and the camera ["c1"]. *)
Lemma enumeration_idempotent_witness :
  let st1 := enumerateDevicesResolved 2 idemFresh idemStart in
  let st2 := enumerateDevicesResolved 3 idemFresh st1 in
  emitted st2 = emitted st1 /\ devices st2 = devices st1 /\ heap st2 = heap st1 /\
  preferenceAudioInputList st2 = preferenceAudioInputList st1 /\
  preferenceVideoInputList st2 = preferenceVideoInputList st1 /\
  get "audioInputId" st2 = get "audioInputId" st1 /\
  get "videoInputId" st2 = get "videoInputId" st1.
Proof.
  refine (enumeration_idempotent 2 3 idemFresh idemStart _ _ _).
  - intros l Hl. assert (E : devices idemStart = [0; 1]) by (vm_compute; reflexivity).
    rewrite E in Hl. destruct Hl as [<-|[<-|[]]]; eexists; vm_compute; reflexivity.
  - assert (E : map mdiIdent idemFresh = [("m1", "audioinput"); ("m2", "audioinput"); ("c1", "videoinput")])
      by reflexivity.
    rewrite E. repeat (apply List.NoDup_cons; [simpl; intuition discriminate|]). apply List.NoDup_nil.
  - intros ik. destruct ik; vm_compute; discriminate.
Defined.


(** * Further properties *)
Lemma count_app (p : hw_call -> bool) (l m : list hw_call) :
  length (List.filter p (l ++ m)) = length (List.filter p l) + length (List.filter p m).
Proof. rewrite List.filter_app, length_app. reflexivity. Qed.

Lemma enable_step (s : manager) :
  supported s = true ->
  let s' := enableDeviceEvents s in
  supported s' = true /\ enabledCount s' = (enabledCount s + 1)%Z /\
  countRemoveListener (hw s') = countRemoveListener (hw s) /\
  countAddListener (hw s') = S (countAddListener (hw s)) /\
  countEnumerations (hw s') = S (countEnumerations (hw s)).
Proof.
  intros Hs. unfold enableDeviceEvents. rewrite Hs. cbn -[Z.add].
  unfold countRemoveListener, countAddListener, countEnumerations.
  rewrite !count_app. simpl. repeat split; auto; lia.
Qed.

Lemma disable_step (s : manager) :
  supported s = true ->
  let s' := disableDeviceEvents s in
  supported s' = true /\ enabledCount s' = (enabledCount s - 1)%Z /\
  countRemoveListener (hw s') = countRemoveListener (hw s) + (if Z.eqb (enabledCount s - 1) 0 then 1 else 0) /\
  countAddListener (hw s') = countAddListener (hw s) /\
  countEnumerations (hw s') = countEnumerations (hw s).
Proof.
  intros Hs. unfold disableDeviceEvents. rewrite Hs. cbn -[Z.sub Z.eqb].
  destruct (Z.eqb (enabledCount s - 1) 0); cbn -[Z.sub].
  - unfold countRemoveListener, countAddListener, countEnumerations.
    rewrite !count_app. simpl. repeat split; auto; lia.
  - repeat split; auto; lia.
Qed.

Lemma enable_iter (k : nat) (st : manager) :
  supported st = true ->
  let s := Nat.iter k enableDeviceEvents st in
  supported s = true /\ enabledCount s = (enabledCount st + Z.of_nat k)%Z /\
  countRemoveListener (hw s) = countRemoveListener (hw st) /\
  countAddListener (hw s) = countAddListener (hw st) + k /\
  countEnumerations (hw s) = countEnumerations (hw st) + k.
Proof.
  intros Hs. induction k as [|k IH]; cbn zeta in *.
  - simpl. repeat split; auto; lia.
  - destruct IH as (H1 & H2 & H3 & H4 & H5).
    destruct (enable_step _ H1) as (G1 & G2 & G3 & G4 & G5).
    change (Nat.iter (S k) enableDeviceEvents st) with (enableDeviceEvents (Nat.iter k enableDeviceEvents st)).
    rewrite G1, G2, G3, G4, G5, H2, H3, H4, H5. repeat split; auto; lia.
Qed.

Lemma disable_iter (j : nat) (st : manager) :
  supported st = true ->
  let s := Nat.iter j disableDeviceEvents st in
  supported s = true /\ enabledCount s = (enabledCount st - Z.of_nat j)%Z /\
  countRemoveListener (hw s) = countRemoveListener (hw st) +
    (if Z.leb (enabledCount st - Z.of_nat j) 0 && Z.ltb 0 (enabledCount st) then 1 else 0) /\
  countAddListener (hw s) = countAddListener (hw st) /\
  countEnumerations (hw s) = countEnumerations (hw st).
Proof.
  intros Hs. induction j as [|j IH]; cbn zeta in *.
  - simpl. rewrite Z.sub_0_r.
    destruct (Z.leb_spec (enabledCount st) 0), (Z.ltb_spec 0 (enabledCount st)); simpl; repeat split; auto; lia.
  - destruct IH as (H1 & H2 & H3 & H4 & H5).
    destruct (disable_step _ H1) as (G1 & G2 & G3 & G4 & G5).
    change (Nat.iter (S j) disableDeviceEvents st) with (disableDeviceEvents (Nat.iter j disableDeviceEvents st)).
    rewrite G1, G2, G3, G4, G5, H2, H3, H4, H5.
    destruct (Z.leb_spec (enabledCount st - Z.of_nat j) 0), (Z.ltb_spec 0 (enabledCount st)),
             (Z.leb_spec (enabledCount st - Z.of_nat (S j)) 0),
             (Z.eqb_spec (enabledCount st - Z.of_nat j - 1) 0); simpl; repeat split; auto; lia.
Qed.

(** X1: on a supported manager, [k] calls of [enableDeviceEvents]
    followed by [k] calls of [disableDeviceEvents] give the counter back
    its value, add [k] [devicechange] listeners and [k] enumerations, and
    remove the listener once exactly when the counter was at most 0 and
    the [k] calls raised it above 0. *)
Theorem deviceEvents_refcount (k : nat) (st : manager) :
  supported st = true ->
  let n := enabledCount st in
  let s := Nat.iter k disableDeviceEvents (Nat.iter k enableDeviceEvents st) in
  enabledCount s = n /\
  countAddListener (hw s) = countAddListener (hw st) + k /\
  countEnumerations (hw s) = countEnumerations (hw st) + k /\
  countRemoveListener (hw s) = countRemoveListener (hw st) +
    (if Z.leb n 0 && Z.ltb 0 (n + Z.of_nat k) then 1 else 0).
Proof.
  intros Hs. cbn zeta.
  destruct (enable_iter k st Hs) as (E1 & E2 & E3 & E4 & E5).
  destruct (disable_iter k _ E1) as (D1 & D2 & D3 & D4 & D5).
  rewrite D2, D3, D4, D5, E2, E3, E4, E5.
  replace (enabledCount st + Z.of_nat k - Z.of_nat k)%Z with (enabledCount st) by lia.
  repeat split; lia.
Qed.

(** The X1 statement at a concrete input. *)
Lemma deviceEvents_refcount_witness :
  countRemoveListener (hw (Nat.iter 2 disableDeviceEvents (Nat.iter 2 enableDeviceEvents (emptyStorageManager true)))) = 1 /\
  countRemoveListener (hw (Nat.iter 1 disableDeviceEvents (Nat.iter 1 enableDeviceEvents
     (disableDeviceEvents (emptyStorageManager true))))) = 0.
Proof.
  split.
  - destruct (deviceEvents_refcount 2 (emptyStorageManager true) eq_refl) as (_ & _ & _ & H).
    rewrite H. reflexivity.
  - destruct (deviceEvents_refcount 1 (disableDeviceEvents (emptyStorageManager true)) eq_refl) as (_ & _ & _ & H).
    rewrite H. reflexivity.
Defined.

(** X2: when no track is registered twice and the hardware
    [getUserMedia] rejects with [e], [_getUserMediaInternal] rejects with
    [e] after the walk of [_stopIncompatibleTracks] (the stopped live
    tracks leave [_tracks]), the [getUserMedia] call and a device
    enumeration, and leaves the attributes, the storage and the emitted
    events as they were. *)
Theorem getUserMediaInternal_error (c : constraints) (e : js_error) (st : manager) :
  NoDup (map track_id (tracks st)) ->
  let c' := resolveConstraints c st in
  let w := stopWalk c' (tracks st) in
  let '(st', c'', o) := getUserMediaInternal c (GumErr e) st in
  c'' = c' /\ o = Rejected e /\
  tracks st' = fst w /\
  hw st' = (hw st ++ map HwStopTrack (snd w) ++
            [HwGetUserMedia c'; HwEnumerateDevices (nextEnumeration st)])%list /\
  attributes st' = attributes st /\ storage st' = storage st /\ emitted st' = emitted st /\
  pendingEnumerate st' = Some (nextEnumeration st).
Proof.
  intros Hnd. cbn zeta. unfold getUserMediaInternal.
  rewrite (stopIncompatibleTracks_walk _ _ Hnd). cbn.
  rewrite <- !app_assoc. repeat split.
Qed.

Lemma getUserMediaInternal_error_witness :
  NoDup (map track_id (tracks (set_tracks [cam1Track; micTrack] (emptyStorageManager true)))) /\
  tracks (fst (fst (getUserMediaInternal cam2Constraints (GumErr hwFailure1)
                      (set_tracks [cam1Track; micTrack] (emptyStorageManager true))))) = [micTrack].
Proof.
  assert (Hnd : NoDup (map track_id (tracks (set_tracks [cam1Track; micTrack] (emptyStorageManager true)))))
    by (apply NoDup_ListNoDup; vm_compute; repeat constructor; simpl; intuition discriminate).
  split; [exact Hnd|].
  pose proof (getUserMediaInternal_error cam2Constraints hwFailure1
                (set_tracks [cam1Track; micTrack] (emptyStorageManager true)) Hnd) as H.
  revert H. cbn zeta.
  destruct (getUserMediaInternal cam2Constraints (GumErr hwFailure1)
              (set_tracks [cam1Track; micTrack] (emptyStorageManager true))) as [[st' c''] o].
  intros (_ & _ & Ht & _). simpl. rewrite Ht. vm_compute. reflexivity.
Defined.

Lemma set_get_other (key key' : string) (v : jsval) (st : manager) :
  key' <> key -> get key' (set key v st) = get key' st.
Proof. intros H. unfold set. cbn zeta. unfold get. simpl. rewrite lookup_insert_ne by congruence. reflexivity. Qed.

Lemma set_storage_other (ik : input_kind) (key : string) (v : jsval) (st : manager) :
  key <> selKey ik -> storage (set key v st) !! selKey ik = storage st !! selKey ik.
Proof.
  intros H. rewrite storage_set. unfold storeDeviceId.
  destruct (_ && _); [reflexivity|].
  destruct (truthy _); unfold setItem, removeItem;
    [rewrite lookup_insert_ne by congruence | rewrite lookup_delete_ne by congruence]; reflexivity.
Qed.

Lemma reconcile_one (ik : input_kind) (stream : list track) (st : manager) :
  let sel := get (selKey ik) st in
  let st' := reconcileSelection (selKey ik) (trackKind ik) stream st in
  get (selKey ik) st' =
    (if truthy sel then match negotiatedId (trackKind ik) stream with Some d => JStr d | None => sel end
     else sel) /\
  storage st' !! selKey ik =
    (match (if truthy sel then negotiatedId (trackKind ik) stream else None) with
     | Some d => if strict_eq sel (JStr d) then storage st !! selKey ik else Some (SStr d)
     | None => storage st !! selKey ik
     end) /\
  (forall ik', ik' <> ik -> get (selKey ik') st' = get (selKey ik') st /\
                           storage st' !! selKey ik' = storage st !! selKey ik').
Proof.
  cbn zeta. unfold reconcileSelection, negotiatedId.
  destruct (truthy (get (selKey ik) st)) eqn:Ht; [|repeat split; auto].
  destruct (List.filter _ stream) as [|t ts]; [repeat split; auto|].
  destruct (track_settings_deviceId t) as [d|]; [|repeat split; auto].
  destruct (String.eqb d "") eqn:Hd; cbn [negb andb].
  - repeat split; auto.
  - destruct (strict_eq (get (selKey ik) st) (JStr d)) eqn:Hs; cbn [negb andb].
    + unfold strict_eq in Hs. apply bool_decide_eq_true_1 in Hs. rewrite <- Hs.
      repeat split; auto.
    + split; [apply get_setAttr_eq|]. split.
      * rewrite storage_set. unfold storeDeviceId.
        destruct ik; simpl; rewrite Hd; simpl; unfold setItem; rewrite lookup_insert_eq; reflexivity.
      * intros ik' Hne. assert (selKey ik' <> selKey ik) by (destruct ik, ik'; simpl; congruence).
        split; [apply set_get_other; assumption|]. apply set_storage_other. congruence.
Qed.

(** X3: [_updateSelectedDevicesFromGetUserMediaResult] replaces a truthy
    selection by the truthy [deviceId] of the first track of that kind,
    storing it when it differs; a falsy selection, or a stream with no
    such [deviceId], leaves the selection and its stored value alone. *)
Theorem updateSelectedDevices_spec (ik : input_kind) (stream : list track) (st : manager) :
  let sel := get (selKey ik) st in
  let st' := updateSelectedDevicesFromGetUserMediaResult stream st in
  get (selKey ik) st' =
    (if truthy sel then match negotiatedId (trackKind ik) stream with Some d => JStr d | None => sel end
     else sel) /\
  storage st' !! selKey ik =
    (match (if truthy sel then negotiatedId (trackKind ik) stream else None) with
     | Some d => if strict_eq sel (JStr d) then storage st !! selKey ik else Some (SStr d)
     | None => storage st !! selKey ik
     end).
Proof.
  cbn zeta. unfold updateSelectedDevicesFromGetUserMediaResult.
  change "audioInputId" with (selKey AudioInput). change "audio" with (trackKind AudioInput).
  change "videoInputId" with (selKey VideoInput). change "video" with (trackKind VideoInput).
  set (s1 := reconcileSelection (selKey AudioInput) (trackKind AudioInput) stream st).
  destruct ik.
  - destruct (reconcile_one AudioInput stream st) as (A1 & A2 & _).
    destruct (reconcile_one VideoInput stream s1) as (_ & _ & V3).
    destruct (V3 AudioInput ltac:(discriminate)) as [V31 V32].
    rewrite V31, V32. split; assumption.
  - destruct (reconcile_one AudioInput stream st) as (_ & _ & A3).
    destruct (A3 VideoInput ltac:(discriminate)) as [A31 A32].
    destruct (reconcile_one VideoInput stream s1) as (V1 & V2 & _).
    fold s1 in A31, A32. rewrite V1, V2, A31, A32. split; reflexivity.
Qed.

Lemma removeTrack_absent (id : nat) (ts : list track) :
  ~ In id (map track_id ts) -> removeTrack id ts = ts.
Proof.
  induction ts as [|u ts IH]; simpl; intros H; [reflexivity|].
  destruct (Nat.eqb_spec (track_id u) id) as [E|E]; [exfalso; apply H; left; exact E|].
  rewrite IH; [reflexivity|]. intros Hin. apply H. right; exact Hin.
Qed.

Lemma removeTrack_app (t : track) (ts more : list track) :
  ~ In (track_id t) (map track_id ts) -> removeTrack (track_id t) (ts ++ t :: more) = (ts ++ more)%list.
Proof.
  induction ts as [|u ts IH]; simpl; intros H.
  - rewrite Nat.eqb_refl. reflexivity.
  - destruct (Nat.eqb_spec (track_id u) (track_id t)) as [E|E]; [exfalso; apply H; left; exact E|].
    rewrite IH; [reflexivity|]. intros Hin. apply H. right; exact Hin.
Qed.

(** X4: after [_registerStream] of a stream whose first track [t] was not
    registered, the [ended] event of [t] removes exactly [t]: the other
    tracks of the stream stay registered; on a manager where [t] is not
    registered, [ended] changes nothing. *)
Theorem trackEnded_registered (t : track) (more : list track) (st : manager) :
  ~ In (track_id t) (map track_id (tracks st)) ->
  tracks (trackEnded (track_id t) (registerStream (t :: more) st)) = (tracks st ++ more)%list /\
  tracks (trackEnded (track_id t) st) = tracks st.
Proof.
  intros H. split.
  - unfold trackEnded. change (tracks (set_tracks ?x ?s)) with x.
    rewrite (proj1 (registerStream_tracks (t :: more) st)).
    apply removeTrack_app. exact H.
  - unfold trackEnded. change (tracks (set_tracks ?x ?s)) with x. apply removeTrack_absent. exact H.
Qed.

(** The X4 statement at a concrete input. *)
Lemma trackEnded_registered_witness :
  tracks (trackEnded (track_id micTrack) (registerStream [micTrack; cam1Track] (emptyStorageManager true)))
    = [cam1Track].
Proof.
  refine (proj1 (trackEnded_registered micTrack [cam1Track] (emptyStorageManager true) _)).
  simpl. intros [].
Defined.

Lemma cachedFallback_frame (key : string) (fb : option string) (s s' : manager) :
  knownDevices s' = knownDevices s -> heap s' = heap s -> cachedFallback key fb s -> cachedFallback key fb s'.
Proof. intros Hk Hh. unfold cachedFallback. rewrite Hk, Hh. auto. Qed.

Lemma cachedFallback_updateDevice (key : string) (fb : option string) (f : media_device_info) (s s' : manager) :
  updateDevice f s = Some s' -> cachedFallback key fb s -> cachedFallback key fb s'.
Proof.
  intros Hu (l & Hk & Hh & Hf). apply updateDevice_spec in Hu as (l0 & _ & _ & _ & ->).
  exists l. simpl. split; [exact Hk|]. split.
  - apply lookup_insert_is_Some'. right. exact Hh.
  - rewrite deref_insert. destruct (Nat.eq_dec l0 l) as [<-|_]; [|exact Hf].
    simpl. exact Hf.
Qed.

Lemma cachedFallback_updateAll (key : string) (fb : option string) (fs : list media_device_info) (s : manager) :
  cachedFallback key fb s -> cachedFallback key fb (fst (updateAll fs s)).
Proof.
  revert s. induction fs as [|f fs IH]; intros s H; simpl; [exact H|].
  destruct (updateDevice f s) as [s'|] eqn:E; [|exact H].
  apply IH. eapply cachedFallback_updateDevice; eassumption.
Qed.

Lemma addDevice_knownDevices (f : media_device_info) (s : manager) :
  knownDevices (addDevice f s) = <[knownDeviceKey f := fresh (dom (heap s))]> (knownDevices s).
Proof. reflexivity. Qed.

Lemma cachedFallback_addDevice (key : string) (fb : option string) (f : media_device_info) (s : manager) :
  cachedFallback key fb s -> cachedFallback key fb (addDevice f s).
Proof.
  intros (l & Hk & Hh & Hf).
  destruct (addDevice_shape f s) as (_ & Hheap & Hfresh).
  unfold cachedFallback. rewrite addDevice_knownDevices, Hheap.
  destruct (String.eq_dec (knownDeviceKey f) key) as [<-|Hne].
  - exists (fresh (dom (heap s))). rewrite !lookup_insert_eq. split; [reflexivity|]. split; [eexists; reflexivity|].
    unfold deref. rewrite lookup_insert_eq. simpl. unfold addedDeviceRecord. rewrite Hk. simpl. exact Hf.
  - exists l. rewrite lookup_insert_ne by exact Hne. split; [exact Hk|].
    assert (Hl : fresh (dom (heap s)) <> l) by (intros <-; rewrite Hfresh in Hh; inversion Hh; discriminate).
    split; [apply lookup_insert_is_Some'; right; exact Hh|].
    rewrite deref_insert. destruct (Nat.eq_dec _ l); [contradiction|exact Hf].
Qed.

Lemma cachedFallback_adds (key : string) (fb : option string) (A : list media_device_info) (s : manager) :
  cachedFallback key fb s -> cachedFallback key fb (fold_left (fun s f => addDevice f s) A s).
Proof.
  revert s. induction A as [|f A IH]; intros s H; simpl; [exact H|].
  apply IH. apply cachedFallback_addDevice. exact H.
Qed.

Lemma cachedFallback_removals (key : string) (fb : option string) (R : list loc) (s : manager) :
  cachedFallback key fb s -> cachedFallback key fb (fold_left (fun s l => removeDevice l s) R s).
Proof.
  revert s. induction R as [|r R IH]; intros s H; simpl; [exact H|].
  apply IH. eapply cachedFallback_frame; [apply removeDevice_frame|apply removeDevice_heap|exact H].
Qed.

Lemma cachedFallback_diffDevices (key : string) (fb : option string) (F : list media_device_info) (s : manager) :
  cachedFallback key fb s -> cachedFallback key fb (fst (diffDevices F s)).
Proof.
  intros H. unfold diffDevices. cbn zeta.
  pose proof (cachedFallback_removals key fb
    (List.filter (fun l => negb (existsb (sameDevice (deref (heap s) l)) F)) (devices s)) s H) as H1.
  set (s1 := fold_left _ _ s) in *.
  pose proof (cachedFallback_updateAll key fb
    (List.filter (fun f => existsb (fun l => sameDevice (deref (heap s) l) f) (devices s)) F) s1 H1) as H2.
  destruct (updateAll _ s1) as [s2 []]; simpl in *; [|exact H2].
  apply cachedFallback_adds. exact H2.
Qed.

Lemma processDevices_cache_frame (F : list media_device_info) (s : manager) :
  let s1 := fst (diffDevices F s) in
  knownDevices (fst (processDevices F s)) = knownDevices s1 /\ heap (fst (processDevices F s)) = heap s1.
Proof.
  cbn zeta. unfold processDevices. cbn zeta.
  destruct (diffDevices F s) as [s1 []]; simpl; [|split; reflexivity].
  unfold notifyIfChanged, recomputeSelection.
  repeat match goal with |- context [if ?c then _ else _] => destruct c end;
  unfold populatePreferences; destruct (populateMediaDevicesPreferences _ _ _) as [[?|] [?|]];
  split; reflexivity.
Qed.

(** X5: a device object cached in [_knownDevices] stays cached and
    allocated through an enumeration pass, with the same [fallbackLabel]. *)
Theorem fallbackLabel_stable (key : string) (l : loc) (k : nat) (F : list media_device_info) (st : manager) :
  knownDevices st !! key = Some l -> is_Some (heap st !! l) ->
  let st' := enumerateDevicesResolved k F st in
  exists l', knownDevices st' !! key = Some l' /\ is_Some (heap st' !! l') /\
    fallbackLabel (deref (heap st') l') = fallbackLabel (deref (heap st) l).
Proof.
  intros Hk Hh. cbn zeta.
  assert (H0 : cachedFallback key (fallbackLabel (deref (heap st) l)) st) by (exists l; auto).
  apply (cachedFallback_diffDevices key _ F) in H0.
  destruct (processDevices_cache_frame F st) as [E1 E2].
  exact (cachedFallback_frame _ _ _ _ E1 E2 H0).
Qed.

Lemma prefsPersisted_frame (s s' : manager) :
  storage s' = storage s -> preferenceAudioInputList s' = preferenceAudioInputList s ->
  preferenceVideoInputList s' = preferenceVideoInputList s -> prefsPersisted s -> prefsPersisted s'.
Proof. intros H1 H2 H3. unfold prefsPersisted. rewrite H1, H2, H3. auto. Qed.

Lemma removeDevice_storage (l : loc) (s : manager) : storage (removeDevice l s) = storage s.
Proof. unfold removeDevice. destruct (_ && _); [reflexivity|]. destruct (_ && _); reflexivity. Qed.

Lemma diffDevices_storage (F : list media_device_info) (s : manager) :
  storage (fst (diffDevices F s)) = storage s.
Proof.
  unfold diffDevices. cbn zeta.
  assert (H1 : forall R s, storage (fold_left (fun s l => removeDevice l s) R s) = storage s).
  { induction R as [|r R IH]; intros s0; simpl; [reflexivity|]. rewrite IH. apply removeDevice_storage. }
  assert (H2 : forall fs s, storage (fst (updateAll fs s)) = storage s).
  { induction fs as [|f fs IH]; intros s0; simpl; [reflexivity|].
    destruct (updateDevice f s0) as [s'|] eqn:E; [|reflexivity].
    rewrite IH. apply updateDevice_spec in E as (? & _ & _ & _ & ->). reflexivity. }
  assert (H3 : forall A s, storage (fold_left (fun s f => addDevice f s) A s) = storage s).
  { induction A as [|f A IH]; intros s0; simpl; [reflexivity|]. rewrite IH. reflexivity. }
  set (s1 := fold_left _ _ s). specialize (H2 (List.filter (fun f => existsb (fun l => sameDevice (deref (heap s) l) f) (devices s)) F) s1).
  destruct (updateAll _ s1) as [s2 []]; simpl in *; [rewrite H3|]; rewrite H2; apply H1.
Qed.

Lemma populatePreferences_persisted (F : list media_device_info) (s : manager) :
  prefsPersisted s -> prefsPersisted (populatePreferences F s).
Proof.
  unfold prefsPersisted, populatePreferences. intros [Ha Hv].
  destruct (populateMediaDevicesPreferences _ _ _) as [[a|] [v|]]; simpl; unfold getItem, setItem in *.
  all: repeat first [rewrite lookup_insert_eq | rewrite lookup_insert_ne by discriminate]; auto.
Qed.

(** X6: when reading the preference lists back from storage gives their
    current values, it still does after an enumeration pass, and a manager constructed
    from the resulting storage starts with the same preference lists. *)
Theorem prefs_persisted_pass (k : nat) (F : list media_device_info) (st : manager) (sup : bool) :
  prefsPersisted st ->
  let st' := enumerateDevicesResolved k F st in
  prefsPersisted st' /\
  exists m, newMediaDevicesManager sup (storage st') = Some m /\ forall ik, prefList ik m = prefList ik st'.
Proof.
  intros H. cbn zeta.
  assert (H1 : prefsPersisted (enumerateDevicesResolved k F st)).
  { destruct (enumerateDevicesResolved_frame k F st) as (_ & _ & Ea & Ev & _).
    assert (Es : storage (enumerateDevicesResolved k F st) = storage (afterDiff F st)).
    { unfold enumerateDevicesResolved, processDevices. cbn zeta. unfold afterDiff.
      destruct (diffDevices F st) as [s1 b] eqn:E. pose proof (diffDevices_ok F st) as Ok.
      rewrite E in Ok. simpl in Ok. subst b. simpl.
      unfold notifyIfChanged, recomputeSelection.
      repeat match goal with |- context [if ?c then _ else _] => destruct c end; reflexivity. }
    apply (prefsPersisted_frame (afterDiff F st)); [exact Es|exact Ea|exact Ev|].
    unfold afterDiff. apply populatePreferences_persisted.
    destruct (diffDevices_frame AudioInput F st) as (_ & Pa & Pv & _).
    apply (prefsPersisted_frame st); [apply diffDevices_storage|exact Pa|exact Pv|exact H]. }
  split; [exact H1|].
  destruct H1 as [Ha Hv]. unfold newMediaDevicesManager. rewrite Ha, Hv.
  eexists. split; [reflexivity|]. intros []; reflexivity.
Qed.

(** X7: [updatePreferences] for an input kind keeps the stored preference
    lists in step with the current ones, sets the kind's list to the answer of [promoteMediaDevice]
    (kept when it answers [null]), leaves the kind's [DevicePreferred] flag
    truthy, never rewrites a truthy flag, and changes no attribute. *)
Theorem updatePreferences_spec
    (promoteMediaDevice : string -> list device -> list string -> jsval -> option (list string))
    (ik : input_kind) (st : manager) :
  prefsPersisted st ->
  let st' := updatePreferences promoteMediaDevice (devKind ik) st in
  prefsPersisted st' /\
  prefList ik st' = default (prefList ik st)
    (promoteMediaDevice (devKind ik) (map (deref (heap st)) (devices st)) (prefList ik st) (get (selKey ik) st)) /\
  storedTruthy (getItem (preferredFlagKey ik) (storage st')) = true /\
  (storedTruthy (getItem (preferredFlagKey ik) (storage st)) = true ->
     getItem (preferredFlagKey ik) (storage st') = getItem (preferredFlagKey ik) (storage st)) /\
  attributes st' = attributes st.
Proof.
  intros [Ha Hv]. cbn zeta. unfold prefsPersisted.
  destruct ik; unfold updatePreferences; simpl;
  destruct (promoteMediaDevice _ _ _ _) as [l|]; simpl;
  unfold getItem, setItem in *;
  match goal with |- context [storedTruthy ?v] => destruct (storedTruthy v) eqn:Hf end; simpl;
  repeat first [rewrite lookup_insert_eq in * | rewrite lookup_insert_ne in * by discriminate];
  repeat split; auto; try discriminate; try (intros H; rewrite H in Hf; discriminate).
Qed.

(** X8: when the device objects of the list are allocated and the fresh
    list has no two entries with the same [(deviceId, kind)], after an
    enumeration pass every device of the list matches a fresh entry, and
    every fresh entry has a device with its [deviceId], [kind] and
    [groupId] (and its label, when not empty). *)
Theorem enumeration_mirrors_devices (k : nat) (F : list media_device_info) (st : manager) :
  heapWf st -> List.NoDup (map mdiIdent F) ->
  let st' := enumerateDevicesResolved k F st in
  heapWf st' /\
  (forall l, In l (devices st') -> existsb (sameDevice (deref (heap st') l)) F = true) /\
  (forall f, In f F -> exists l, In l (devices st') /\
     let d := deref (heap st') l in
     deviceId d = mdi_deviceId f /\ kind d = mdi_kind f /\ groupId d = mdi_groupId f /\
     (mdi_label f <> "" -> label d = mdi_label f)).
Proof.
  intros Hwf Hnd. cbn zeta.
  pose proof (diffDevices_settled F st Hwf Hnd) as Hs.
  destruct (enumerateDevicesResolved_frame k F st) as (Ed & Eh & _).
  destruct (populatePreferences_devices F (fst (diffDevices F st))) as [Pd Ph].
  unfold afterDiff in Ed, Eh.
  assert (Hs' : settledFor F F (enumerateDevicesResolved k F st)).
  { eapply settledFor_transfer; [| |exact Hs]; congruence. }
  destruct Hs' as (H1 & H2 & H3).
  split; [exact H1|]. split; [exact H2|].
  intros f Hf. destruct (H3 f Hf) as (l & Hfind & _ & Hfix).
  apply find_some in Hfind as [Hin Hsd].
  exists l. split; [exact Hin|]. cbn zeta.
  apply sameDevice_kind in Hsd as [Hid Hk].
  set (d := deref _ l) in *.
  unfold updatedRecord in Hfix. destruct d as [di dg dk dl dfb]; simpl in *.
  injection Hfix as Hg Hk' Hl. repeat split; auto.
  intros Hne. destruct (String.eqb_spec (mdi_label f) "") as [E|_]; [contradiction|]. simpl in Hl. auto.
Qed.

Lemma stops_frame (stream : list track) (st : manager) :
  let s := fold_left (fun s t => issue (HwStopTrack (track_id t)) s) stream st in
  hw s = (hw st ++ map (fun t => HwStopTrack (track_id t)) stream)%list /\
  set_hw (hw st) s = st.
Proof.
  revert st. induction stream as [|t stream IH]; intros st; simpl.
  - rewrite app_nil_r. destruct st; split; reflexivity.
  - destruct (IH (issue (HwStopTrack (track_id t)) st)) as [H1 H2]. split.
    + rewrite H1. simpl. rewrite <- app_assoc. reflexivity.
    + set (s := fold_left _ _ _) in *. transitivity (set_hw (hw st) (set_hw (hw (issue (HwStopTrack (track_id t)) st)) s)).
      * destruct s; reflexivity.
      * rewrite H2. destruct st; reflexivity.
Qed.

Lemma requestInitialPermissionsSettled_spec (r : gum_response) (st : manager) :
  let st' := requestInitialPermissionsSettled r st in
  hw st' = (hw st ++
           match r with GumOk stream => map (fun t => HwStopTrack (track_id t)) stream | GumErr _ => [] end ++
           [HwEnumerateDevices (nextEnumeration st)])%list /\
  tracks st' = tracks st /\ attributes st' = attributes st /\ storage st' = storage st /\
  pendingEnumerate st' = Some (nextEnumeration st) /\ inflight st' = (inflight st ++ [nextEnumeration st])%list.
Proof.
  cbn zeta. destruct r as [stream|e]; simpl.
  - destruct (stops_frame stream st) as [H1 H2].
    set (s1 := fold_left _ _ _) in *.
    rewrite <- H2. unfold updateDevices, issue. simpl. rewrite H1. rewrite <- app_assoc. repeat split.
  - repeat split.
Qed.

(** X9: on a freshly constructed supported manager, once the permission
    request of [requestInitialPermissions] settles, the calls issued are
    the [getUserMedia] request, a stop for each track it answered, then the
    first device enumeration; no track is registered and the attributes
    and the storage are unchanged. *)
Theorem initialPermissions_settled (s : gmap string stored) (m : manager) (r : gum_response) :
  newMediaDevicesManager true s = Some m ->
  let m' := requestInitialPermissionsSettled r m in
  hw m' = ([HwGetUserMedia (mkConstraints (MBool true) (MBool true))] ++
           match r with GumOk stream => map (fun t => HwStopTrack (track_id t)) stream | GumErr _ => [] end ++
           [HwEnumerateDevices 0])%list /\
  tracks m' = [] /\ attributes m' = attributes m /\ storage m' = storage m /\
  pendingEnumerate m' = Some 0 /\ inflight m' = [0].
Proof.
  intros H. cbn zeta.
  assert (E : hw m = [HwGetUserMedia (mkConstraints (MBool true) (MBool true))] /\ tracks m = [] /\
              nextEnumeration m = 0 /\ inflight m = []).
  { unfold newMediaDevicesManager in H.
    destruct (parsePreferences (getItem "audioInputPreferences" s)),
             (parsePreferences (getItem "videoInputPreferences" s)); try discriminate.
    injection H as <-. repeat split. }
  destruct E as (E1 & E2 & E3 & E4).
  destruct (requestInitialPermissionsSettled_spec r m) as (H1 & H2 & H3 & H4 & H5 & H6).
  rewrite H1, H2, H5, H6, E1, E2, E3, E4. repeat split; assumption.
Qed.

(** The X5 statement at a concrete input. *)
Lemma fallbackLabel_stable_witness :
  let st' := enumerateDevicesResolved 2 idemFresh idemStart in
  exists l', knownDevices st' !! knownDeviceKey (mic "old") = Some l' /\ is_Some (heap st' !! l') /\
    fallbackLabel (deref (heap st') l') = fallbackLabel (deref (heap idemStart) 0).
Proof.
  refine (fallbackLabel_stable (knownDeviceKey (mic "old")) 0 2 idemFresh idemStart _ _).
  - vm_compute. reflexivity.
  - eexists. vm_compute. reflexivity.
Defined.

(** The X6 statement at a concrete input. *)
Lemma prefs_persisted_pass_witness :
  let st' := enumerateDevicesResolved 2 idemFresh idemStart in
  prefsPersisted st' /\
  exists m, newMediaDevicesManager true (storage st') = Some m /\ forall ik, prefList ik m = prefList ik st'.
Proof.
  refine (prefs_persisted_pass 2 idemFresh idemStart true _).
  split; vm_compute; reflexivity.
Defined.

(** The X7 statement at a concrete input. *)
Lemma updatePreferences_spec_witness :
  let promote := fun (_ : string) (_ : list device) (l : list string) (_ : jsval) => Some ("m1" :: l) in
  let st' := updatePreferences promote (devKind AudioInput) (emptyStorageManager true) in
  prefsPersisted st' /\
  prefList AudioInput st' = default (prefList AudioInput (emptyStorageManager true))
    (promote (devKind AudioInput) (map (deref (heap (emptyStorageManager true))) (devices (emptyStorageManager true)))
       (prefList AudioInput (emptyStorageManager true)) (get (selKey AudioInput) (emptyStorageManager true))) /\
  storedTruthy (getItem (preferredFlagKey AudioInput) (storage st')) = true /\
  (storedTruthy (getItem (preferredFlagKey AudioInput) (storage (emptyStorageManager true))) = true ->
     getItem (preferredFlagKey AudioInput) (storage st') = getItem (preferredFlagKey AudioInput) (storage (emptyStorageManager true))) /\
  attributes st' = attributes (emptyStorageManager true).
Proof.
  refine (updatePreferences_spec _ AudioInput (emptyStorageManager true) _).
  split; vm_compute; reflexivity.
Defined.

(** The X8 statement at a concrete input. *)
Lemma enumeration_mirrors_devices_witness :
  let st' := enumerateDevicesResolved 2 idemFresh idemStart in
  heapWf st' /\
  (forall l, In l (devices st') -> existsb (sameDevice (deref (heap st') l)) idemFresh = true) /\
  (forall f, In f idemFresh -> exists l, In l (devices st') /\
     let d := deref (heap st') l in
     deviceId d = mdi_deviceId f /\ kind d = mdi_kind f /\ groupId d = mdi_groupId f /\
     (mdi_label f <> "" -> label d = mdi_label f)).
Proof.
  refine (enumeration_mirrors_devices 2 idemFresh idemStart _ _).
  - intros l Hl. assert (E : devices idemStart = [0; 1]) by (vm_compute; reflexivity).
    rewrite E in Hl. destruct Hl as [<-|[<-|[]]]; eexists; vm_compute; reflexivity.
  - assert (E : map mdiIdent idemFresh = [("m1", "audioinput"); ("m2", "audioinput"); ("c1", "videoinput")])
      by reflexivity.
    rewrite E. repeat (apply List.NoDup_cons; [simpl; intuition discriminate|]). apply List.NoDup_nil.
Defined.

(** The X9 statement at a concrete input. *)
Lemma initialPermissions_settled_witness :
  let m' := requestInitialPermissionsSettled (GumOk [micTrack]) (emptyStorageManager true) in
  hw m' = ([HwGetUserMedia (mkConstraints (MBool true) (MBool true))] ++
           [HwStopTrack (track_id micTrack)] ++ [HwEnumerateDevices 0])%list /\
  tracks m' = [] /\ attributes m' = attributes (emptyStorageManager true) /\
  storage m' = storage (emptyStorageManager true) /\
  pendingEnumerate m' = Some 0 /\ inflight m' = [0].
Proof.
  refine (initialPermissions_settled ∅ (emptyStorageManager true) (GumOk [micTrack]) _).
  apply newMediaDevicesManager_empty.
Defined.

(** X10: the [personal] and [groups] tabs split the conversations with a
    truthy [displayName]: each such conversation is in exactly one of them
    (by the truthiness of its [description]), and no other conversation is
    in either. *)
Theorem filteredConversationsByTab_partition (l : list conversation) (c : conversation) :
  (In c (filteredConversationsByTab "personal" l) \/ In c (filteredConversationsByTab "groups" l) <->
     In c l /\ truthy (conv_displayName c) = true) /\
  ~ (In c (filteredConversationsByTab "personal" l) /\ In c (filteredConversationsByTab "groups" l)) /\
  length (filteredConversationsByTab "personal" l) + length (filteredConversationsByTab "groups" l) =
    length (List.filter (fun c => truthy (conv_displayName c)) l).
Proof.
  unfold filteredConversationsByTab; simpl. rewrite !filter_In. split; [|split].
  - destruct (truthy (conv_description c)), (truthy (conv_displayName c)); simpl; intuition discriminate.
  - destruct (truthy (conv_description c)); simpl; intuition discriminate.
  - induction l as [|d l IH]; simpl; [reflexivity|].
    destruct (truthy (conv_description d)), (truthy (conv_displayName d)); simpl; lia.
Qed.

Lemma filter_sublist {A} (p : A -> bool) (l : list A) : sublist (List.filter p l) l.
Proof. induction l as [|x r IH]; simpl; [constructor|]. destruct (p x); constructor; exact IH. Qed.

Lemma filter_nil_iff {A} (p : A -> bool) (l : list A) :
  Nat.eqb (length (List.filter p l)) 0 = true <-> ~ exists x, In x l /\ p x = true.
Proof.
  rewrite Nat.eqb_eq, length_zero_iff_nil. split.
  - intros H [x Hx]. rewrite <- filter_In, H in Hx. destruct Hx.
  - intros H. destruct (List.filter p l) as [|x r] eqn:E; [reflexivity|].
    exfalso. apply H. exists x. rewrite <- filter_In, E. left. reflexivity.
Qed.

Section SidebarProps.

Variable filterConversation : conversation -> list string -> bool.
Variable shouldIncludeArchived : conversation -> bool -> bool.
Variable hasCall : conversation -> bool.

(** X11: [filteredConversationsList] keeps the conversations, in order,
    that [shouldIncludeArchived] accepts and, when the search box is not
    focused, that pass the filters, have a call or are the current one,
    provided some conversation of the whole list passes the filters or the
    user is navigating. *)
Theorem filteredConversationsList_spec (s : sidebar) (token : jsval) (l : list conversation) (c : conversation) :
  (In c (filteredConversationsList filterConversation shouldIncludeArchived hasCall s token l) <->
   In c l /\ shouldIncludeArchived c (showArchived s) = true /\
   (isFocused s = true \/
    ((filterConversation c (filters s) = true \/ hasCall c = true \/ JStr (conv_token c) = token) /\
     (isNavigating s = true \/ exists c', In c' l /\ filterConversation c' (filters s) = true)))) /\
  sublist (filteredConversationsList filterConversation shouldIncludeArchived hasCall s token l) l.
Proof.
  unfold filteredConversationsList.
  destruct (isFocused s) eqn:Ef.
  - rewrite filter_In. split; [|apply filter_sublist]. intuition congruence.
  - pose proof (filter_nil_iff (fun c => filterConversation c (filters s)) l) as Hn. simpl in Hn.
    destruct (Nat.eqb _ 0) eqn:E0; destruct (isNavigating s) eqn:En; simpl.
    + rewrite filter_In. split; [|apply filter_sublist].
      unfold strict_eq. rewrite andb_true_iff, !orb_true_iff, bool_decide_eq_true. intuition congruence.
    + split; [|apply sublist_nil_l].
      split; [intros []|]. intros (_ & _ & [H|[_ [H|H]]]); [discriminate|discriminate|].
      apply Hn in H; auto.
    + rewrite filter_In. split; [|apply filter_sublist].
      unfold strict_eq. rewrite andb_true_iff, !orb_true_iff, bool_decide_eq_true. intuition congruence.
    + rewrite filter_In. split; [|apply filter_sublist].
      assert (Hex : exists c', In c' l /\ filterConversation c' (filters s) = true).
      { destruct (List.filter (fun c => filterConversation c (filters s)) l) as [|x r] eqn:E;
          [discriminate|].
        exists x. apply (filter_In (fun c => filterConversation c (filters s))). rewrite E. left. reflexivity. }
      unfold strict_eq. rewrite andb_true_iff, !orb_true_iff, bool_decide_eq_true. intuition congruence.
Qed.

(** X12: with filters active and the search box not focused, once the
    [token] watcher has seen the current conversation's non-empty token,
    that conversation is listed (when [shouldIncludeArchived] accepts it),
    even if no conversation passes the filters; without the watcher such a
    list is empty. *)
Theorem current_conversation_listed (s : sidebar) (l : list conversation) (c : conversation) :
  isFiltered s = true -> isFocused s = false -> conv_token c <> "" ->
  In c l -> shouldIncludeArchived c (showArchived s) = true ->
  In c (filteredConversationsList filterConversation shouldIncludeArchived hasCall
          (watchToken (JStr (conv_token c)) s) (JStr (conv_token c)) l) /\
  (~ (exists c', In c' l /\ filterConversation c' (filters s) = true) ->
   filteredConversationsList filterConversation shouldIncludeArchived hasCall s (JStr (conv_token c)) l <> [] ->
   isNavigating s = true).
Proof.
  intros Hf Hfoc Ht Hin Ha.
  assert (Hw : watchToken (JStr (conv_token c)) s =
               mkSidebar (filters s) (showArchived s) (searchText s) (isFocused s) true (browserStorage s)).
  { unfold watchToken. simpl. rewrite Hf. destruct (String.eqb_spec (conv_token c) ""); [contradiction|reflexivity]. }
  split.
  - rewrite Hw. apply filteredConversationsList_spec. simpl. rewrite Hfoc. auto 10.
  - intros Hno Hne. unfold filteredConversationsList in Hne. rewrite Hfoc in Hne.
    destruct (isNavigating s); [reflexivity|].
    pose proof (proj2 (filter_nil_iff (fun c => filterConversation c (filters s)) l) Hno) as H0.
    simpl in H0. rewrite H0 in Hne. simpl in Hne. contradiction.
Qed.

End SidebarProps.

Section UnreadMentionProps.

Variable hasUnreadMentions : conversation -> bool.

Lemma unreadMentionLoop_spec (l : list conversation) (last : Z) (n : nat) :
  (-1 <= last)%Z -> n <= length l ->
  exists r, unreadMentionLoop hasUnreadMentions l last n = Some r /\
  (forall i, r = Some i -> (0 <= i /\ last < i /\ i < Z.of_nat n)%Z /\
     exists c, nth_error l (Z.to_nat i) = Some c /\ hasUnreadMentions c = true) /\
  (forall j c, j < n -> nth_error l j = Some c -> hasUnreadMentions c = true -> (last < Z.of_nat j)%Z ->
     exists i, r = Some i /\ (Z.of_nat j <= i)%Z).
Proof.
  intros Hl. induction n as [|j IH]; intros Hn; simpl.
  - destruct (Z.ltb_spec last (-1)); [lia|].
    exists None. split; [reflexivity|]. split; [discriminate|]. intros; lia.
  - destruct (Z.ltb_spec last (Z.of_nat j)) as [Hlt|Hge].
    + destruct (nth_error l j) as [c|] eqn:E; [|apply nth_error_None in E; lia].
      destruct (hasUnreadMentions c) eqn:Hc.
      * exists (Some (Z.of_nat j)). split; [reflexivity|]. split.
        -- intros i [= <-]. split; [lia|]. exists c. rewrite Nat2Z.id. auto.
        -- intros j' c' Hj' _ _ _. exists (Z.of_nat j). split; [reflexivity|lia].
      * destruct (IH ltac:(lia)) as (r & Hr & H1 & H2). exists r. split; [exact Hr|]. split.
        -- intros i Hi. destruct (H1 i Hi) as [? ?]. split; [lia|assumption].
        -- intros j' c' Hj' Hc' Hm Hlast. destruct (Nat.eq_dec j' j) as [->|Hne].
           ++ rewrite E in Hc'. injection Hc' as <-. congruence.
           ++ apply (H2 j' c'); auto. lia.
    + exists None. split; [reflexivity|]. split; [discriminate|]. intros; lia.
Qed.

(** X13: when the last index in the viewport is at least -1, the loop of
    [handleUnreadMention] sets [lastUnreadMentionBelowViewportIndex] to the
    greatest index below the viewport whose conversation has an unread
    mention, and to [null] when there is none. *)
Theorem handleUnreadMention_spec (l : list conversation) (lastConversationInViewport : Z) :
  (-1 <= lastConversationInViewport)%Z ->
  exists r, handleUnreadMention hasUnreadMentions l lastConversationInViewport = Some r /\
  (forall i, r = Some i -> (lastConversationInViewport < i)%Z /\
     exists c, nth_error l (Z.to_nat i) = Some c /\ hasUnreadMentions c = true /\ Z.of_nat (Z.to_nat i) = i) /\
  (forall j c, nth_error l j = Some c -> hasUnreadMentions c = true -> (lastConversationInViewport < Z.of_nat j)%Z ->
     exists i, r = Some i /\ (Z.of_nat j <= i)%Z).
Proof.
  intros Hl. destruct (unreadMentionLoop_spec l lastConversationInViewport (length l) Hl (le_n _))
    as (r & Hr & H1 & H2).
  exists r. split; [exact Hr|]. split.
  - intros i Hi. destruct (H1 i Hi) as [Hb (c & Hc & Hm)]. split; [lia|]. exists c. split; [exact Hc|].
    split; [exact Hm|lia].
  - intros j c Hj. apply H2; [|exact Hj]. apply nth_error_Some. congruence.
Qed.

End UnreadMentionProps.

Lemma in_filters_existsb (x : string) (l : list string) : existsb (String.eqb x) l = true <-> In x l.
Proof.
  rewrite existsb_exists. split.
  - intros (y & Hy & E). apply String.eqb_eq in E. subst. exact Hy.
  - intros H. exists x. split; [exact H|apply String.eqb_refl].
Qed.

Lemma nodup_snoc {A} (l : list A) (x : A) : List.NoDup l -> ~ In x l -> List.NoDup (l ++ [x]).
Proof.
  induction l as [|y l IH]; simpl; intros Hnd Hx.
  - constructor; [intros []|constructor].
  - inversion Hnd as [|? ? Hy Hnd']; subst. constructor.
    + intros H. apply in_app_or in H as [H|[<-|[]]]; [contradiction|]. apply Hx. left. reflexivity.
    + apply IH; [exact Hnd'|]. intros H. apply Hx. right. exact H.
Qed.

(** X14: [handleFilter] keeps the active filters free of duplicates and
    never has both [unread] and [mentions] active; a name toggles its
    membership, [null] clears the filters, no other name is added, and the
    search text and the navigation flag are reset. *)
Theorem handleFilter_invariant (filter : option string) (s : sidebar) :
  List.NoDup (filters s) -> ~ (In "unread" (filters s) /\ In "mentions" (filters s)) ->
  let s' := handleFilter filter s in
  List.NoDup (filters s') /\ ~ (In "unread" (filters s') /\ In "mentions" (filters s')) /\
  (forall f, filter = Some f -> (In f (filters s') <-> ~ In f (filters s))) /\
  (forall g, In g (filters s') -> In g (filters s) \/ filter = Some g) /\
  (filter = None -> filters s' = []) /\
  searchText s' = "" /\ isNavigating s' = false.
Proof.
  intros Hnd Hr. cbn zeta. unfold handleFilter. simpl.
  destruct filter as [f|]; simpl.
  2:{ split; [constructor|]. split; [intros [[] _]|]. split; [discriminate|]. split; [intros _ []|]. split; [intros _; reflexivity|split; reflexivity]. }
  destruct (existsb (String.eqb f) (filters s)) eqn:Ex.
  - apply in_filters_existsb in Ex.
    split; [apply List.NoDup_filter, Hnd|]. split.
    { intros [H1 H2]. apply filter_In in H1, H2. tauto. }
    split.
    { intros g [= <-]. rewrite filter_In, String.eqb_refl. simpl. split; [intros [_ H]; discriminate|intros H; contradiction]. }
    split; [|split; [discriminate|split; reflexivity]].
    intros g Hg. apply filter_In in Hg. tauto.
  - assert (Hn : ~ In f (filters s)) by (rewrite <- in_filters_existsb, Ex; discriminate).
    destruct (String.eqb_spec f "unread") as [->|Hu]; [|destruct (String.eqb_spec f "mentions") as [->|Hm]]; simpl.
    + split.
      { apply nodup_snoc; [apply List.NoDup_filter, Hnd|].
        intros Hx. apply filter_In in Hx. simpl in Hx. destruct Hx as [_ Hx]. discriminate. }
      split.
      { intros [_ H]. apply in_app_or in H as [H|[H|[]]]; [|discriminate]. apply filter_In in H. simpl in H.
        destruct H as [_ H]. discriminate. }
      split.
      { intros g [= <-]. split; [intros _; exact Hn|]. intros _. apply in_or_app. right. left. reflexivity. }
      split; [|split; [discriminate|split; reflexivity]].
      intros g Hg. apply in_app_or in Hg as [Hg|[<-|[]]]; [|right; reflexivity].
      apply filter_In in Hg. tauto.
    + split.
      { apply nodup_snoc; [apply List.NoDup_filter, Hnd|].
        intros Hx. apply filter_In in Hx. simpl in Hx. destruct Hx as [_ Hx]. discriminate. }
      split.
      { intros [H _]. apply in_app_or in H as [H|[H|[]]]; [|discriminate]. apply filter_In in H. simpl in H.
        destruct H as [_ H]. discriminate. }
      split.
      { intros g [= <-]. split; [intros _; exact Hn|]. intros _. apply in_or_app. right. left. reflexivity. }
      split; [|split; [discriminate|split; reflexivity]].
      intros g Hg. apply in_app_or in Hg as [Hg|[<-|[]]]; [|right; reflexivity].
      apply filter_In in Hg. tauto.
    + split.
      { apply nodup_snoc; assumption. }
      split.
      { intros [H1 H2]. apply in_app_or in H1 as [H1|[H1|[]]]; [|congruence].
        apply in_app_or in H2 as [H2|[H2|[]]]; [|congruence]. tauto. }
      split.
      { intros g [= <-]. split; [intros _; exact Hn|]. intros _. apply in_or_app. right. left. reflexivity. }
      split; [|split; [discriminate|split; reflexivity]].
      intros g Hg. apply in_app_or in Hg as [Hg|[<-|[]]]; [left; exact Hg|right; reflexivity].
Qed.

Lemma append_String (c : ascii) (w t : string) : (String c w ++ t) = String c (w ++ t).
Proof. reflexivity. Qed.

Lemma splitComma_not_nil (t : string) : splitComma t <> [].
Proof.
  induction t as [|c t IH]; simpl; [discriminate|].
  destruct (Ascii.eqb c ","); [discriminate|]. destruct (splitComma t); discriminate.
Qed.

Lemma splitComma_app (w t : string) :
  ~ In ","%char (list_ascii_of_string w) ->
  splitComma (w ++ t) = match splitComma t with x :: xs => (w ++ x) :: xs | [] => [] end.
Proof.
  induction w as [|c w IH]; intros Hw.
  - change ("" ++ t) with t. destruct (splitComma t); reflexivity.
  - rewrite append_String. simpl in Hw |- *. rewrite IH by tauto.
    destruct (Ascii.eqb_spec c ",") as [->|_]; [exfalso; tauto|].
    destruct (splitComma t) eqn:E; [exfalso; exact (splitComma_not_nil t E)|reflexivity].
Qed.

Lemma append_empty_r (w : string) : (w ++ "") = w.
Proof. induction w as [|c w IH]; [reflexivity|]. rewrite append_String, IH. reflexivity. Qed.

Lemma splitComma_concat (fs : list string) :
  fs <> [] -> Forall (fun g => ~ In ","%char (list_ascii_of_string g)) fs ->
  splitComma (String.concat "," fs) = fs.
Proof.
  induction fs as [|w fs IH]; intros Hne Hf; [contradiction|].
  inversion Hf as [|? ? Hw Hfs]; subst.
  destruct fs as [|w' fs'].
  - simpl. rewrite <- (append_empty_r w) at 1. rewrite splitComma_app by exact Hw.
    simpl. rewrite append_empty_r. reflexivity.
  - change (String.concat "," (w :: w' :: fs')) with (w ++ String "," (String.concat "," (w' :: fs'))).
    rewrite splitComma_app by exact Hw.
    change (splitComma (String "," (String.concat "," (w' :: fs'))))
      with ("" :: splitComma (String.concat "," (w' :: fs'))).
    rewrite IH by (discriminate || exact Hfs). rewrite append_empty_r. reflexivity.
Qed.

Lemma handleFilter_from (filter : option string) (s : sidebar) (g : string) :
  In g (filters (handleFilter filter s)) -> In g (filters s) \/ filter = Some g.
Proof.
  unfold handleFilter. simpl. destruct filter as [f|]; simpl; [|intros []].
  destruct (existsb _ _); [intros H; apply filter_In in H; tauto|].
  destruct (_ || _); intros H; apply in_app_or in H as [H|[<-|[]]]; auto.
  apply filter_In in H. tauto.
Qed.

(** X15: when no filter name contains a comma, after [handleFilter] the
    value [setup()] restores from [BrowserStorage] is the current filter
    list, and no other storage key changes. *)
Theorem handleFilter_persists (filter : option string) (s : sidebar) :
  Forall (fun g => ~ In ","%char (list_ascii_of_string g)) (filters s) ->
  (forall f, filter = Some f -> ~ In ","%char (list_ascii_of_string f)) ->
  let s' := handleFilter filter s in
  restoreFilters (getItem "filterEnabled" (browserStorage s')) = Some (filters s') /\
  (forall k, k <> "filterEnabled" -> getItem k (browserStorage s') = getItem k (browserStorage s)).
Proof.
  intros Hs Hf. cbn zeta.
  assert (Hc : Forall (fun g => ~ In ","%char (list_ascii_of_string g)) (filters (handleFilter filter s))).
  { apply List.Forall_forall. intros g Hg. apply handleFilter_from in Hg as [Hg|Hg].
    - rewrite List.Forall_forall in Hs. auto.
    - auto. }
  revert Hc. unfold handleFilter at 1 2 3. simpl.
  set (fs := match filter with Some f => _ | None => [] end). intros Hc.
  destruct (Nat.eqb_spec (length fs) 0) as [E|E]; simpl; unfold getItem, setItem, removeItem.
  - apply length_zero_iff_nil in E. rewrite E, lookup_delete_eq. split; [reflexivity|].
    intros k Hk. rewrite lookup_delete_ne by congruence. reflexivity.
  - rewrite lookup_insert_eq. simpl. rewrite splitComma_concat by (auto; intros ->; simpl in E; lia).
    split; [reflexivity|]. intros k Hk. rewrite lookup_insert_ne by congruence. reflexivity.
Qed.

Lemma filter_all {A} (p : A -> bool) (l : list A) :
  (forall x, In x l -> p x = true) -> List.filter p l = l.
Proof.
  induction l as [|x l IH]; simpl; intros H; [reflexivity|].
  rewrite H by (left; reflexivity). f_equal. apply IH. intros y Hy. apply H. right. exact Hy.
Qed.

(** X16: applying [handleFilter] twice with an inactive filter name
    gives the filter list back, unless the name is [unread] or [mentions]
    while the other one of them is active. *)
Theorem handleFilter_toggle_twice (f : string) (s : sidebar) :
  ~ In f (filters s) ->
  ((f = "unread" \/ f = "mentions") -> ~ In "unread" (filters s) /\ ~ In "mentions" (filters s)) ->
  filters (handleFilter (Some f) (handleFilter (Some f) s)) = filters s.
Proof.
  intros Hn Hr.
  assert (E1 : filters (handleFilter (Some f) s) = (filters s ++ [f])%list).
  { unfold handleFilter. simpl.
    destruct (existsb (String.eqb f) (filters s)) eqn:Ex; [apply in_filters_existsb in Ex; contradiction|].
    destruct (String.eqb_spec f "unread") as [Hu|Hu]; [|destruct (String.eqb_spec f "mentions") as [Hm|Hm]]; simpl.
    - destruct (Hr (or_introl Hu)) as [H1 H2]. f_equal. apply filter_all. intros x Hx.
      destruct (String.eqb_spec x "unread"); [subst; contradiction|].
      destruct (String.eqb_spec x "mentions"); [subst; contradiction|]. reflexivity.
    - destruct (Hr (or_intror Hm)) as [H1 H2]. f_equal. apply filter_all. intros x Hx.
      destruct (String.eqb_spec x "unread"); [subst; contradiction|].
      destruct (String.eqb_spec x "mentions"); [subst; contradiction|]. reflexivity.
    - reflexivity. }
  remember (handleFilter (Some f) s) as s1 eqn:Hs1. clear Hs1.
  unfold handleFilter. simpl. rewrite E1.
  assert (Ex : existsb (String.eqb f) (filters s ++ [f]) = true).
  { apply in_filters_existsb. apply in_or_app. right. left. reflexivity. }
  rewrite Ex. rewrite List.filter_app. simpl. rewrite String.eqb_refl. simpl. rewrite app_nil_r.
  apply filter_all. intros x Hx. destruct (String.eqb_spec x f); [subst; contradiction|reflexivity].
Qed.

(** X18: from an idle state whose loop counter is in [0, 10], [n]
    settled calls of [fetchConversations] send [n] requests, the [i]-th
    with [modifiedSince = 0] whenever [(counter - i) mod 11 = 0] and with
    [includeLastMessage] from [isCompact]; the counter ends at
    [(counter - n) mod 11], and one [conversations-received] event is
    emitted per successful request. *)
Theorem fetchRounds_full_refresh (signalingInternal : bool) (rounds : list (bool * fetchResult)) (s : fetchState) :
  isFetchingConversations s = false ->
  (0 <= forceFullRoomListRefreshAfterXLoops s <= 10)%Z ->
  let c := forceFullRoomListRefreshAfterXLoops s in
  let s' := fetchRounds signalingInternal rounds s in
  isFetchingConversations s' = false /\
  forceFullRoomListRefreshAfterXLoops s' = ((c - Z.of_nat (length rounds)) mod 11)%Z /\
  conversationsReceived s' = (conversationsReceived s + okRounds rounds)%nat /\
  exists R, fetchRequests s' = (fetchRequests s ++ R)%list /\ length R = length rounds /\
    (forall i req, nth_error R i = Some req -> ((c - Z.of_nat i) mod 11 = 0)%Z -> fst req = JNum 0) /\
    (forall i req isCompact r, nth_error rounds i = Some (isCompact, r) -> nth_error R i = Some req ->
       snd req = if isCompact then 0%Z else 1%Z).
Proof.
  revert s. induction rounds as [|[b r] rounds IH]; intros s Hf Hc; cbn zeta.
  - simpl. split; [exact Hf|]. split; [rewrite Z.sub_0_r, Z.mod_small; lia|].
    split; [unfold okRounds; simpl; lia|].
    exists []. rewrite app_nil_r. split; [reflexivity|]. split; [reflexivity|].
    split; intros i req; rewrite nth_error_nil; discriminate.
  - set (c := forceFullRoomListRefreshAfterXLoops s).
    set (mb := if Z.eqb c 0 then JNum 0 else roomListModifiedBefore s).
    set (s1 := fetchConversationsSettled signalingInternal r (fetchConversationsStart b s)).
    assert (E : fetchRounds signalingInternal ((b, r) :: rounds) s = fetchRounds signalingInternal rounds s1)
      by reflexivity.
    assert (H1 : isFetchingConversations s1 = false /\
                 forceFullRoomListRefreshAfterXLoops s1 = ((c - 1) mod 11)%Z /\
                 conversationsReceived s1 =
                   (conversationsReceived s + match r with FetchOk _ => 1 | FetchErr => 0 end)%nat /\
                 fetchRequests s1 = (fetchRequests s ++ [(mb, if b then 0%Z else 1%Z)])%list).
    { unfold s1, fetchConversationsStart. rewrite Hf. unfold mb. fold c.
      destruct (Z.eqb_spec c 0) as [E0|E0]; destruct r; simpl; repeat split; try reflexivity; try lia.
      all: first [rewrite E0; reflexivity | rewrite Z.mod_small; lia]. }
    destruct H1 as (F1 & C1 & R1 & Q1).
    assert (B1 : (0 <= forceFullRoomListRefreshAfterXLoops s1 <= 10)%Z)
      by (rewrite C1; pose proof (Z.mod_pos_bound (c - 1) 11); lia).
    destruct (IH s1 F1 B1) as (F2 & C2 & R2 & R & Q2 & L2 & P2 & K2). cbn zeta in *.
    rewrite E. split; [exact F2|]. split.
    { rewrite C2, C1, Zminus_mod_idemp_l. f_equal. simpl length. lia. }
    split.
    { rewrite R2, R1. unfold okRounds. simpl. destruct r; simpl; lia. }
    exists ((mb, if b then 0%Z else 1%Z) :: R). split.
    { rewrite Q2, Q1, <- app_assoc. reflexivity. }
    split; [simpl; lia|]. split.
    + intros [|i] req Hreq Hi; simpl in Hreq.
      * injection Hreq as <-. simpl. unfold mb.
        destruct (Z.eqb_spec c 0); [reflexivity|]. exfalso. rewrite Z.sub_0_r, Z.mod_small in Hi; lia.
      * apply (P2 i req Hreq). rewrite C1, Zminus_mod_idemp_l, <- Hi. f_equal. lia.
    + intros [|i] req isCompact r' Hr Hreq; simpl in Hr, Hreq.
      * injection Hr as <- <-. injection Hreq as <-. reflexivity.
      * exact (K2 i req isCompact r' Hr Hreq).
Qed.

(** X19: forcing a full refresh makes the next request use
    [modifiedSince = 0] when no fetch is in flight; when one is, its
    response header (outside internal signaling) overwrites the forced
    value, and the next request uses the header instead. *)
Theorem forceFullRoomListRefresh_next_fetch (isCompact isCompact' : bool) (h : jsval) (s : fetchState) :
  truthy h = true ->
  (isFetchingConversations s = false ->
   fetchRequests (fetchConversationsStart isCompact (forceFullRoomListRefresh s)) =
     (fetchRequests s ++ [(JNum 0, if isCompact then 0%Z else 1%Z)])%list) /\
  (isFetchingConversations s = true ->
   let s1 := fetchConversationsSettled false (FetchOk h)
               (fetchConversationsStart isCompact (forceFullRoomListRefresh s)) in
   let s2 := fetchConversationsStart isCompact' s1 in
   fetchRequests s2 = (fetchRequests s ++ [(h, if isCompact' then 0%Z else 1%Z)])%list /\
   forceFullRoomListRefreshAfterXLoops s2 = 9%Z).
Proof.
  intros Hh. split.
  - intros Hf. unfold fetchConversationsStart, forceFullRoomListRefresh. simpl. rewrite Hf. reflexivity.
  - intros Hf. cbn zeta. unfold fetchConversationsStart, forceFullRoomListRefresh. simpl. rewrite Hf. simpl.
    rewrite Hh. simpl. split; reflexivity.
Qed.

(** The X12 statement at a concrete input. *)
Lemma current_conversation_listed_witness :
  In alice (filteredConversationsList (fun _ _ => false) (fun _ _ => true) (fun _ => false)
              (watchToken (JStr (conv_token alice)) unreadOnly) (JStr (conv_token alice)) [team; alice]) /\
  (~ (exists c', In c' [team; alice] /\ false = true) ->
   filteredConversationsList (fun _ _ => false) (fun _ _ => true) (fun _ => false)
     unreadOnly (JStr (conv_token alice)) [team; alice] <> [] ->
   isNavigating unreadOnly = true).
Proof.
  refine (current_conversation_listed (fun _ _ => false) (fun _ _ => true) (fun _ => false)
            unreadOnly [team; alice] alice _ _ _ _ _); try reflexivity.
  - discriminate.
  - right. left. reflexivity.
Defined.

(** The X13 statement at a concrete input. *)
Lemma handleUnreadMention_spec_witness :
  exists r, handleUnreadMention (fun c => truthy (conv_description c)) [team; alice; alice] (-1)%Z = Some r /\
  (forall i, r = Some i -> ((-1) < i)%Z /\
     exists c, nth_error [team; alice; alice] (Z.to_nat i) = Some c /\ truthy (conv_description c) = true /\
       Z.of_nat (Z.to_nat i) = i) /\
  (forall j c, nth_error [team; alice; alice] j = Some c -> truthy (conv_description c) = true ->
     ((-1) < Z.of_nat j)%Z -> exists i, r = Some i /\ (Z.of_nat j <= i)%Z).
Proof.
  refine (handleUnreadMention_spec (fun c => truthy (conv_description c)) [team; alice; alice] (-1)%Z _).
  lia.
Defined.

(** The X14 statement at a concrete input. *)
Lemma handleFilter_invariant_witness :
  let s' := handleFilter (Some "mentions") unreadOnly in
  List.NoDup (filters s') /\ ~ (In "unread" (filters s') /\ In "mentions" (filters s')) /\
  (forall f, Some "mentions" = Some f -> (In f (filters s') <-> ~ In f (filters unreadOnly))) /\
  (forall g, In g (filters s') -> In g (filters unreadOnly) \/ Some "mentions" = Some g) /\
  (Some "mentions" = None -> filters s' = []) /\
  searchText s' = "" /\ isNavigating s' = false.
Proof.
  refine (handleFilter_invariant (Some "mentions") unreadOnly _ _).
  - constructor; [intros []|constructor].
  - intros [_ [H|[]]]. discriminate.
Defined.

(** The X15 statement at a concrete input. *)
Lemma handleFilter_persists_witness :
  let s' := handleFilter (Some "events") unreadOnly in
  restoreFilters (getItem "filterEnabled" (browserStorage s')) = Some (filters s') /\
  (forall k, k <> "filterEnabled" -> getItem k (browserStorage s') = getItem k (browserStorage unreadOnly)).
Proof.
  refine (handleFilter_persists (Some "events") unreadOnly _ _).
  - repeat constructor. simpl. intuition discriminate.
  - intros f [= <-]. simpl. intuition discriminate.
Defined.

(** The X16 statement at a concrete input. *)
Lemma handleFilter_toggle_twice_witness :
  filters (handleFilter (Some "events") (handleFilter (Some "events") unreadOnly)) = filters unreadOnly.
Proof.
  refine (handleFilter_toggle_twice "events" unreadOnly _ _).
  - simpl. intuition discriminate.
  - intros [H|H]; discriminate.
Defined.

(** The X18 statement at a concrete input. *)
Lemma fetchRounds_full_refresh_witness :
  let rounds := [(true, FetchOk (JStr "t1")); (false, FetchErr); (true, FetchOk (JStr "t2"))] in
  let s' := fetchRounds false rounds fetchStart in
  isFetchingConversations s' = false /\
  forceFullRoomListRefreshAfterXLoops s' = ((0 - Z.of_nat (length rounds)) mod 11)%Z /\
  conversationsReceived s' = (conversationsReceived fetchStart + okRounds rounds)%nat /\
  exists R, fetchRequests s' = (fetchRequests fetchStart ++ R)%list /\ length R = length rounds /\
    (forall i req, nth_error R i = Some req -> ((0 - Z.of_nat i) mod 11 = 0)%Z -> fst req = JNum 0) /\
    (forall i req isCompact r, nth_error rounds i = Some (isCompact, r) -> nth_error R i = Some req ->
       snd req = if isCompact then 0%Z else 1%Z).
Proof.
  refine (fetchRounds_full_refresh false _ fetchStart _ _); simpl; [reflexivity|lia].
Defined.

(** The X19 statement at a concrete input. *)
Lemma forceFullRoomListRefresh_next_fetch_witness :
  (isFetchingConversations fetchStart = false ->
   fetchRequests (fetchConversationsStart true (forceFullRoomListRefresh fetchStart)) =
     (fetchRequests fetchStart ++ [(JNum 0, 0%Z)])%list) /\
  (isFetchingConversations fetchStart = true ->
   let s1 := fetchConversationsSettled false (FetchOk (JStr "t1"))
               (fetchConversationsStart true (forceFullRoomListRefresh fetchStart)) in
   let s2 := fetchConversationsStart false s1 in
   fetchRequests s2 = (fetchRequests fetchStart ++ [(JStr "t1", 1%Z)])%list /\
   forceFullRoomListRefreshAfterXLoops s2 = 9%Z).
Proof.
  refine (forceFullRoomListRefresh_next_fetch true false (JStr "t1") fetchStart _). reflexivity.
Defined.

Section SearchProps.

Variable ONE_TO_ONE : Z.
Variable USERS : string.

Lemma oneToOneMap_spec (userId : string) (l : list conversation) (x : string) :
  In x (oneToOneMap ONE_TO_ONE userId l) <->
  x = userId \/ exists c, In c l /\ conv_type c = ONE_TO_ONE /\ conv_name c = x.
Proof.
  unfold oneToOneMap.
  assert (G : forall acc, In x (fold_left (fun acc result =>
                 if Z.eqb (conv_type result) ONE_TO_ONE then (acc ++ [conv_name result])%list else acc) l acc) <->
              In x acc \/ exists c, In c l /\ conv_type c = ONE_TO_ONE /\ conv_name c = x).
  { induction l as [|c l IH]; intros acc; simpl.
    - split; [tauto|]. intros [H|(c & [] & _)]. exact H.
    - rewrite IH. destruct (Z.eqb_spec (conv_type c) ONE_TO_ONE) as [E|E].
      + rewrite in_app_iff. simpl. split.
        * intros [[H|[H|[]]]|(c' & H1 & H2)]; [tauto| |]. 
          -- right. exists c. auto.
          -- right. exists c'. auto.
        * intros [H|(c' & [<-|H1] & H2 & H3)]; [tauto| |].
          -- left. right. left. exact H3.
          -- right. exists c'. auto.
      + split.
        * intros [H|(c' & H1 & H2)]; [tauto|]. right. exists c'. auto.
        * intros [H|(c' & [<-|H1] & H2 & H3)]; [tauto|contradiction|]. right. exists c'. auto. }
  rewrite G. simpl. split; [intros [[H|[]]|H]; [left; symmetry; exact H|right; exact H]|intros [H|H]; [left; left; symmetry; exact H|right; exact H]].
Qed.

(** X17: once the autocomplete request resolved with the matches [ms],
    [fetchPossibleConversations] sets [searchResults] to the matches of
    [ms], in order, except user matches for the current user or for the
    partner of a one-to-one conversation, and clears [contactsLoading]; a
    response without [ocs] gives no result.  A response whose [ocs] has
    no [data] throws in the [.filter]: an error is shown, [searchResults]
    keeps its value and [contactsLoading] stays [true]; a cancelled
    request changes nothing but [contactsLoading]. *)
Theorem possibleConversationResults_spec (userId : string) (l : list conversation) (ms : list searchMatch)
    (m : searchMatch) (s : possibleSearch) :
  let fetch o := fetchPossibleConversations ONE_TO_ONE USERS userId l o s in
  (exists r, possibleConversationResults ONE_TO_ONE USERS userId l (OcsData ms) = Some r /\
     fetch (AutocompleteResolved (OcsData ms)) = mkPossibleSearch r false (errorsShown s) /\
     sublist r ms /\
     (In m r <->
      In m ms /\
      ~ (match_source m = USERS /\
         (match_id m = userId \/ exists c, In c l /\ conv_type c = ONE_TO_ONE /\ conv_name c = match_id m)))) /\
  fetch (AutocompleteResolved ResponseWithoutOcs) = mkPossibleSearch [] false (errorsShown s) /\
  fetch (AutocompleteResolved OcsWithoutData) = mkPossibleSearch (searchResults s) true (S (errorsShown s)) /\
  fetch (AutocompleteRejected false) = mkPossibleSearch (searchResults s) true (S (errorsShown s)) /\
  fetch (AutocompleteRejected true) = mkPossibleSearch (searchResults s) true (errorsShown s).
Proof.
  cbn zeta. split; [|repeat split].
  eexists. split; [reflexivity|]. split; [reflexivity|]. split; [apply filter_sublist|].
  rewrite filter_In, negb_true_iff, andb_false_iff, String.eqb_neq.
  rewrite <- not_true_iff_false, in_filters_existsb, oneToOneMap_spec.
  destruct (String.eqb_spec (match_source m) USERS); tauto.
Qed.

End SearchProps.
